(** * Bring-up of the RISC-V "rhea" board (hw/riscv/rhea.c)

    A shallow embedding of [rhea_machine_init] and [rhea_machine_class_init].
    The C function is a straight sequence of calls into the platform with a
    loop over the sockets and several fatal exits; it is embedded as a
    computation in a small state-and-exit monad over a [World] holding what
    the function mutates: the board's array of hart arrays, the subregions of
    the system memory, the bytes behind the address space, and the log of
    the platform calls performed so far. *)

From stdpp Require Import base gmap strings list sorting pretty.
From Stdlib Require Import ZArith Lia.

Open Scope Z_scope.

(** ** Constants and the memory map *)

(** Modelled from the spec: the unit macros [KiB] and [MiB] come from
    qemu/units.h, outside the file verified here; the memory map of the spec
    (a ROM of 256 KiB ending at 0x40000) fixes them as the binary
    multipliers. *)
Definition KiB : Z := Z.shiftl 1 10.
Definition MiB : Z := Z.shiftl 1 20.

Definition RHEA_RISCV_CPUS_MAX : Z := 4.
Definition RHEA_SOCKETS_MAX : Z := 1.

(** The anonymous enum indexing [rhea_memmap]. *)
Inductive RheaRegion : Type :=
  | RHEA_ROM
  | RHEA_SRAM
  | RHEA_UART0
  | RHEA_DRAM.

(** [MemMapEntry] of the platform: a base address and a size, both [hwaddr]. *)
Record MemMapEntry : Type := { base : Z; size : Z }.

Definition rhea_memmap (r : RheaRegion) : MemMapEntry :=
  match r with
  | RHEA_ROM => {| base := 0x00000000; size := 256 * KiB |}
  | RHEA_SRAM => {| base := 0x00100000; size := 512 * KiB |}
  | RHEA_UART0 => {| base := 0x06000000; size := 0x100 |}
  | RHEA_DRAM => {| base := 0x40000000; size := 570 * MiB |}
  end.

(** ** Objects of the platform the board touches *)

Inductive RegionKind : Type := KindRom | KindRam.

(** A [MemoryRegion] as far as the board sees it: its name, size and whether
    it was created as ROM or as RAM. *)
Record MemoryRegion : Type :=
  { mr_name : string; mr_size : Z; mr_kind : RegionKind }.

(** Values of the string-keyed properties set on a hart array. *)
Inductive PropValue : Type :=
  | PStr (s : string)
  | PInt (n : Z).

(** [RISCVHartArrayState]: the child object's name, the properties set on it
    so far and whether [sysbus_realize] has completed on it. *)
Record RISCVHartArrayState : Type :=
  { ha_name : string; ha_props : gmap string PropValue; ha_realized : bool }.

(** Modelled from the spec: [MachineState] is declared in hw/boards.h,
    outside the file verified here. The board reads [cpu_type] and [ram]
    from it and hands it to the topology provider; [topology] stands for the
    requested processor topology that the provider reads, given as the hart
    ids of each socket in socket-id order. *)
Record MachineState : Type :=
  { cpu_type : string; ram : MemoryRegion; topology : list (list Z) }.

(** The collaborators of [rhea_machine_init] that are not part of the file:
    the four topology helpers of hw/riscv/numa.h (results are C [int]s, on
    which the board does no arithmetic), the macro [TYPE_RISCV_CPU_BASE], and
    whether the calls made with [&error_fatal] succeed. *)
Record Platform : Type :=
  { riscv_socket_count : MachineState -> Z;
    riscv_socket_check_hartids : MachineState -> Z -> bool;
    riscv_socket_first_hartid : MachineState -> Z -> Z;
    riscv_socket_hart_count : MachineState -> Z -> Z;
    TYPE_RISCV_CPU_BASE : string;
    realize_succeeds : Z -> RISCVHartArrayState -> bool;
    region_init_succeeds : string -> Z -> bool }.

(** ** Outcomes *)

(** The ways [rhea_machine_init] terminates the process: the four
    [error_report]/[exit(1)] pairs, and a failure reported through
    [&error_fatal] by [sysbus_realize] or by the creation of a region. *)
Inductive Fatal : Type :=
  | TooManySockets
  | DiscontinuousHartIds (socket : Z)
  | MissingBaseHartId (socket : Z)
  | MissingHartCount (socket : Z)
  | RealizeFailed (socket : Z)
  | RegionInitFailed (name : string).

(** The text the board gives to [error_report]; the text of a failure
    passed to [&error_fatal] is the callee's. *)
Definition error_message (e : Fatal) : option string :=
  match e with
  | TooManySockets =>
      Some ("number of sockets/nodes should be less than "
              +:+ pretty RHEA_SOCKETS_MAX)
  | DiscontinuousHartIds i =>
      Some ("discontinuous hartids in socket" +:+ pretty i)
  | MissingBaseHartId i =>
      Some ("can't find hartid base for socket" +:+ pretty i)
  | MissingHartCount i =>
      Some ("can't find hart count for socket" +:+ pretty i)
  | RealizeFailed _ | RegionInitFailed _ => None
  end.

Definition is_configuration_error (e : Fatal) : bool :=
  match e with
  | TooManySockets | DiscontinuousHartIds _
  | MissingBaseHartId _ | MissingHartCount _ => true
  | RealizeFailed _ | RegionInitFailed _ => false
  end.

(** Undefined behaviour of the C program that the embedding makes explicit:
    an index outside [s->soc], or a use of a slot of [s->soc] before
    [object_initialize_child] set it up. *)
Inductive Undefined : Type :=
  | OutOfBounds (index : Z)
  | Uninitialized (index : Z).

(** Calls into the platform, in the order they are made. Every event on
    [s->soc] carries the index used. *)
Inductive Event : Type :=
  | EvInitChild (index : Z) (name : string)
  | EvSetProp (index : Z) (prop : string) (v : PropValue)
  | EvRealize (index : Z)
  | EvRegionInit (name : string) (sz : Z) (k : RegionKind)
  | EvMount (addr : Z) (mr : MemoryRegion)
  | EvBlob (name : string) (addr : Z) (data : list Z).

Record World : Type :=
  { soc : list (option RISCVHartArrayState);
    system_memory : list (Z * MemoryRegion);
    memory : gmap Z Z;
    trace : list Event }.

Inductive Outcome (A : Type) : Type :=
  | Returned (a : A) (w : World)
  | Exited (e : Fatal) (w : World)
  | Faulted (u : Undefined) (w : World).

Arguments Returned {A} a w.
Arguments Exited {A} e w.
Arguments Faulted {A} u w.

Definition world_of {A} (o : Outcome A) : World :=
  match o with
  | Returned _ w | Exited _ w | Faulted _ w => w
  end.

Definition M (A : Type) : Type := World -> Outcome A.

Definition ret {A} (a : A) : M A := fun w => Returned a w.

Definition bind {A B} (m : M A) (f : A -> M B) : M B :=
  fun w =>
    match m w with
    | Returned a w' => f a w'
    | Exited e w' => Exited e w'
    | Faulted u w' => Faulted u w'
    end.

Notation "x <- m ;; k" := (bind m (fun x => k))
  (at level 100, m at next level, right associativity).
Notation "m ;; k" := (bind m (fun _ => k))
  (at level 100, right associativity).

(** [error_report(...); exit(1)], and the effect of [&error_fatal]. *)
Definition fatal {A} (e : Fatal) : M A := fun w => Exited e w.

Definition undefined {A} (u : Undefined) : M A := fun w => Faulted u w.

Definition when (b : bool) (m : M unit) : M unit := if b then m else ret tt.

Definition emit (e : Event) : M unit :=
  fun w =>
    Returned tt
      {| soc := soc w; system_memory := system_memory w;
         memory := memory w; trace := trace w ++ [e] |}.

(** [for (i = start; ...; i++) body], for a loop whose number of rounds
    [rounds] is fixed on entry. The counter stays below the loop bound, a C
    [int], so [i++] does not wrap. *)
Fixpoint for_loop (rounds : nat) (i : Z) (body : Z -> M unit) : M unit :=
  match rounds with
  | O => ret tt
  | S r => body i ;; for_loop r (i + 1) body
  end.

(** ** The array [s->soc] *)

Definition in_soc_bounds (i : Z) : bool :=
  (0 <=? i) && (i <? RHEA_SOCKETS_MAX).

(** Forming [&s->soc[i]]: outside the array this is undefined in C. *)
Definition soc_slot (i : Z) : M unit :=
  if in_soc_bounds i then ret tt else undefined (OutOfBounds i).

Definition set_soc (i : Z) (h : RISCVHartArrayState) : M unit :=
  fun w =>
    Returned tt
      {| soc := <[Z.to_nat i := Some h]> (soc w);
         system_memory := system_memory w;
         memory := memory w; trace := trace w |}.

Definition get_soc (i : Z) : M RISCVHartArrayState :=
  fun w =>
    match soc w !! Z.to_nat i with
    | Some (Some h) => Returned h w
    | _ => Faulted (Uninitialized i) w
    end.

(** [object_initialize_child(OBJECT(ms), name, &s->soc[i],
    TYPE_RISCV_HART_ARRAY)]: the slot becomes a fresh hart array. *)
Definition object_initialize_child (name : string) (i : Z) : M unit :=
  soc_slot i ;;
  emit (EvInitChild i name) ;;
  set_soc i {| ha_name := name; ha_props := ∅; ha_realized := false |}.

(** Setting a property of [s->soc[i]] by name. The board passes
    [&error_abort]: a refusal would be a programming error, and the call is
    taken to succeed. *)
Definition object_property_set (i : Z) (prop : string) (v : PropValue)
  : M unit :=
  soc_slot i ;;
  emit (EvSetProp i prop v) ;;
  h <- get_soc i ;;
  set_soc i {| ha_name := ha_name h;
               ha_props := <[prop := v]> (ha_props h);
               ha_realized := ha_realized h |}.

Definition object_property_set_str (i : Z) (prop : string) (v : string)
  : M unit := object_property_set i prop (PStr v).

Definition object_property_set_int (i : Z) (prop : string) (v : Z)
  : M unit := object_property_set i prop (PInt v).

(** [sysbus_realize(SYS_BUS_DEVICE(&s->soc[i]), &error_fatal)]. *)
Definition sysbus_realize (P : Platform) (i : Z) : M unit :=
  soc_slot i ;;
  emit (EvRealize i) ;;
  h <- get_soc i ;;
  if realize_succeeds P i h
  then set_soc i {| ha_name := ha_name h; ha_props := ha_props h;
                    ha_realized := true |}
  else fatal (RealizeFailed i).

(** ** Regions and the address space *)

(** [memory_region_init_rom] and [memory_region_init_ram], both called with
    [&error_fatal]. *)
Definition memory_region_init (P : Platform) (k : RegionKind)
  (name : string) (sz : Z) : M MemoryRegion :=
  emit (EvRegionInit name sz k) ;;
  if region_init_succeeds P name sz
  then ret {| mr_name := name; mr_size := sz; mr_kind := k |}
  else fatal (RegionInitFailed name).

Definition memory_region_init_rom (P : Platform) := memory_region_init P KindRom.
Definition memory_region_init_ram (P : Platform) := memory_region_init P KindRam.

Definition memory_region_add_subregion (offset : Z) (mr : MemoryRegion)
  : M unit :=
  emit (EvMount offset mr) ;;
  fun w =>
    Returned tt
      {| soc := soc w;
         system_memory := system_memory w ++ [(offset, mr)];
         memory := memory w; trace := trace w |}.

Definition read_byte (m : gmap Z Z) (a : Z) : Z := default 0 (m !! a).

Definition read_bytes (m : gmap Z Z) (a : Z) (n : nat) : list Z :=
  map (fun k => read_byte m (a + Z.of_nat k)) (seq 0 n).

(** Storing the bytes [bs] at the addresses [a], [a+1], ... *)
Definition write_bytes (m : gmap Z Z) (a : Z) (bs : list Z) : gmap Z Z :=
  map_seqZ a bs ∪ m.

(** Whether [len] bytes from [addr] lie inside one mounted subregion. *)
Definition covered (sm : list (Z * MemoryRegion)) (addr len : Z) : bool :=
  existsb
    (fun s => (fst s <=? addr) && (addr + len <=? fst s + mr_size (snd s)))
    sm.

(** Modelled from the spec: [rom_add_blob_fixed_as] belongs to hw/loader,
    outside the file verified here. The spec's blob writer "writes a
    fixed byte sequence at a fixed address into an already-mounted region":
    the first [len] bytes of [blob] are stored at [addr] when a mounted
    region holds that range, and nothing is stored otherwise. *)
Definition rom_add_blob_fixed_as (name : string) (blob : list Z) (len : Z)
  (addr : Z) : M unit :=
  let data := take (Z.to_nat len) blob in
  emit (EvBlob name addr data) ;;
  fun w =>
    Returned tt
      (if covered (system_memory w) addr len
       then {| soc := soc w; system_memory := system_memory w;
               memory := write_bytes (memory w) addr data;
               trace := trace w |}
       else w).

(** ** The reset vector *)

(** An array of [n] 32-bit words with a brace initializer: elements without
    an initializer are zero. *)
Definition c_array (n : nat) (init : list Z) : list Z :=
  take n (init ++ replicate (n - length init) 0).

(** [uint32_t reset_vec[4] = { 0x0000006f }]. *)
Definition reset_vec : list Z := c_array 4 [0x0000006f].

Definition sizeof_uint32_t : Z := 4.

(** [sizeof] of an array of [uint32_t]. *)
Definition sizeof_words (words : list Z) : Z :=
  sizeof_uint32_t * Z.of_nat (length words).

(** The four bytes of a [uint32_t] as they lie in memory. [reset_vec] is
    handed to the blob writer as raw bytes in the byte order of the host;
    the embedding fixes a little-endian host, least significant byte
    first. *)
Definition u32_bytes (w : Z) : list Z :=
  map (fun k => Z.land (Z.shiftr w (8 * k)) 0xff) [0; 1; 2; 3].

(** The bytes behind a pointer to an array of [uint32_t]. *)
Definition object_bytes (words : list Z) : list Z :=
  flat_map u32_bytes words.

(** The call that seeds the reset vector:
    [rom_add_blob_fixed_as("mrom.reset", reset_vec, sizeof(reset_vec),
    rhea_memmap[RHEA_ROM].base, &address_space_memory)]. *)
Definition seed_reset_vector : M unit :=
  rom_add_blob_fixed_as "mrom.reset"
    (object_bytes reset_vec) (sizeof_words reset_vec)
    (base (rhea_memmap RHEA_ROM)).

(** ** [rhea_machine_init] *)

(** The three checks at the head of the loop body, which settle
    [base_hartid] and [hart_count] for socket [i]. *)
Definition socket_checks (P : Platform) (ms : MachineState) (i : Z)
  : M (Z * Z) :=
  when (negb (riscv_socket_check_hartids P ms i))
    (fatal (DiscontinuousHartIds i)) ;;
  let base_hartid := riscv_socket_first_hartid P ms i in
  when (base_hartid <? 0) (fatal (MissingBaseHartId i)) ;;
  let hart_count := riscv_socket_hart_count P ms i in
  when (hart_count <? 0) (fatal (MissingHartCount i)) ;;
  ret (base_hartid, hart_count).

(** The rest of the loop body: the hart array of socket [i] is set up in
    [s->soc[i]] and realized. *)
Definition socket_create (P : Platform) (ms : MachineState) (i : Z)
  (base_hartid hart_count : Z) : M unit :=
  let soc_name := "soc" +:+ pretty i in
  object_initialize_child soc_name i ;;
  object_property_set_str i "cpu-type" (cpu_type ms) ;;
  object_property_set_int i "hartid-base" base_hartid ;;
  object_property_set_int i "num-harts" hart_count ;;
  object_property_set_int i "resetvec" (base (rhea_memmap RHEA_ROM)) ;;
  sysbus_realize P i.

Definition init_socket (P : Platform) (ms : MachineState) (i : Z) : M unit :=
  bh <- socket_checks P ms i ;;
  socket_create P ms i (fst bh) (snd bh).

(** The loop [for (i = 0; i < riscv_socket_count(ms); i++)]: the bound does
    not change during the loop, as nothing in it writes to [ms]. *)
Definition init_sockets (P : Platform) (ms : MachineState) : M unit :=
  for_loop (Z.to_nat (riscv_socket_count P ms)) 0 (init_socket P ms).

(** The two [g_new] at the head of the function only reserve the storage
    of the regions created further down. *)
Definition rhea_machine_init (P : Platform) (ms : MachineState) : M unit :=
  (* Check socket count limit *)
  when (RHEA_SOCKETS_MAX <? riscv_socket_count P ms) (fatal TooManySockets) ;;
  (* Initialize sockets *)
  init_sockets P ms ;;
  (* register system main memory (actual RAM) *)
  memory_region_add_subregion (base (rhea_memmap RHEA_DRAM)) (ram ms) ;;
  (* boot rom *)
  mask_rom <- memory_region_init_rom P "riscv.rhea.mrom"
                (size (rhea_memmap RHEA_ROM)) ;;
  memory_region_add_subregion (base (rhea_memmap RHEA_ROM)) mask_rom ;;
  (* reset vector *)
  seed_reset_vector ;;
  (* register SRAM *)
  sram <- memory_region_init_ram P "riscv.rhea.sram"
            (size (rhea_memmap RHEA_SRAM)) ;;
  memory_region_add_subregion (base (rhea_memmap RHEA_SRAM)) sram.

(** The state [rhea_machine_init] starts from: no slot of [s->soc] set up,
    nothing mounted, nothing logged, and [mem] behind the address space. *)
Definition initial_world (mem : gmap Z Z) : World :=
  {| soc := replicate (Z.to_nat RHEA_SOCKETS_MAX) None;
     system_memory := [];
     memory := mem;
     trace := [] |}.

(** ** [rhea_machine_class_init] *)

(** The fields of [MachineClass] the board fills in, apart from the three
    NUMA callbacks. *)
Record MachineClass : Type :=
  { desc : string;
    init : MachineState -> M unit;
    max_cpus : Z;
    default_cpu_type : string;
    numa_mem_supported : bool;
    cpu_cluster_has_numa_boundary : bool;
    default_ram_id : string;
    default_ram_size : Z }.

Definition rhea_machine_class_init (P : Platform) : MachineClass :=
  {| desc := "RISC-V Rhea Machine";
     init := rhea_machine_init P;
     max_cpus := RHEA_RISCV_CPUS_MAX;
     default_cpu_type := TYPE_RISCV_CPU_BASE P;
     numa_mem_supported := true;
     cpu_cluster_has_numa_boundary := true;
     default_ram_id := "riscv.rhea.dram";
     default_ram_size := size (rhea_memmap RHEA_DRAM) |}.

(** ** The collaborators, modelled *)

(** Modelled from the spec: the topology helpers of hw/riscv/numa.c lie
    outside the file verified here. Following the spec's topology provider, a
    socket is known when [topology] lists it; its base hart id is its least
    hart id, its hart count the number of its hart ids, and its hart ids are
    contiguous when, sorted, they equal the arithmetic run
    [[base_hart_id, base_hart_id + hart_count)]. A helper that cannot find
    what it is asked for returns [-1], which is what the board tests for. *)
Definition socket_harts (ms : MachineState) (i : Z) : option (list Z) :=
  if 0 <=? i then topology ms !! Z.to_nat i else None.

Definition hart_run (b : Z) (n : nat) : list Z := seqZ b (Z.of_nat n).

Definition topo_socket_count (ms : MachineState) : Z :=
  Z.of_nat (length (topology ms)).

Definition topo_first_hartid (ms : MachineState) (i : Z) : Z :=
  match socket_harts ms i with
  | Some (h :: t) => foldr Z.min h t
  | _ => -1
  end.

Definition topo_hart_count (ms : MachineState) (i : Z) : Z :=
  match socket_harts ms i with
  | Some ids => Z.of_nat (length ids)
  | None => -1
  end.

Definition topo_check_hartids (ms : MachineState) (i : Z) : bool :=
  match socket_harts ms i with
  | Some ids =>
      bool_decide
        (merge_sort Z.le ids = hart_run (topo_first_hartid ms i) (length ids))
  | None => false
  end.

(** The platform in which the topology helpers are the ones above and every
    call made with [&error_fatal] succeeds. *)
Definition model_platform (cpu_base : string) : Platform :=
  {| riscv_socket_count := topo_socket_count;
     riscv_socket_check_hartids := topo_check_hartids;
     riscv_socket_first_hartid := topo_first_hartid;
     riscv_socket_hart_count := topo_hart_count;
     TYPE_RISCV_CPU_BASE := cpu_base;
     realize_succeeds := fun _ _ => true;
     region_init_succeeds := fun _ _ => true |}.

(** Modelled from the spec: the outer registry that consumes the machine
    class and invokes the board's entry point lives in hw/core, outside the
    file verified here. It is taken to hold the requested number of
    harts against [max_cpus] (the spec's hart limit) and to refuse the
    configuration, without calling [init], when the limit is exceeded. *)
Definition requested_harts (ms : MachineState) : Z :=
  Z.of_nat (length (concat (topology ms))).

Inductive Launch : Type :=
  | Refused (w : World)
  | Invoked (o : Outcome unit).

Definition machine_run_board (mc : MachineClass) (ms : MachineState)
  (w : World) : Launch :=
  if max_cpus mc <? requested_harts ms
  then Refused w
  else Invoked (init mc ms w).

(** Modelled from the spec: the default configuration is one socket with one
    hart (hart id 0), the default processor type and a RAM backing of the
    default name and size of the machine class. *)
Definition default_machine (mc : MachineClass) : MachineState :=
  {| cpu_type := default_cpu_type mc;
     ram := {| mr_name := default_ram_id mc;
               mr_size := default_ram_size mc;
               mr_kind := KindRam |};
     topology := [[0]] |}.

(** Modelled from the spec: the instruction decoder belongs to the
    execution core, outside the file verified here. A hart fetches a
    32-bit instruction as four bytes, least significant first; the word is a
    jump-and-link when its low seven bits are 0x6f, with the destination
    register in bits 7-11 and the signed offset scattered over bits 12-31.
    A jump with destination register 0 and offset 0 branches to itself. *)
Definition le32 (bs : list Z) : Z :=
  foldr (fun b acc => Z.lor b (Z.shiftl acc 8)) 0 bs.

Definition bits (w lo n : Z) : Z := Z.land (Z.shiftr w lo) (Z.ones n).

Definition decode_jal (w : Z) : option (Z * Z) :=
  if bits w 0 7 =? 0x6f
  then
    let u :=
      Z.lor (Z.shiftl (bits w 31 1) 20)
        (Z.lor (Z.shiftl (bits w 12 8) 12)
           (Z.lor (Z.shiftl (bits w 20 1) 11) (Z.shiftl (bits w 21 10) 1))) in
    Some (bits w 7 5, if bits w 31 1 =? 1 then u - Z.shiftl 1 21 else u)
  else None.

Definition branches_to_self (w : Z) : Prop := decode_jal w = Some (0, 0).

(** ** Observations on a run *)

(** The half-open address range [[lo, hi)] a subregion occupies. *)
Definition range_of (s : Z * MemoryRegion) : Z * Z :=
  (fst s, fst s + mr_size (snd s)).

Definition entry_range (e : MemMapEntry) : Z * Z := (base e, base e + size e).

Definition mounted_ranges (w : World) : list (Z * Z) :=
  map range_of (system_memory w).

Definition in_range (r : Z * Z) (a : Z) : Prop := fst r <= a < snd r.

Definition ranges_intersect (r1 r2 : Z * Z) : Prop :=
  exists a, in_range r1 a /\ in_range r2 a.

Definition pairwise_disjoint (rs : list (Z * Z)) : Prop :=
  forall (i j : nat) r1 r2,
    i <> j -> rs !! i = Some r1 -> rs !! j = Some r2 ->
    ~ ranges_intersect r1 r2.

(** The bytes of the ROM, counted from its base. *)
Definition rom_bytes (w : World) (off : Z) (n : nat) : list Z :=
  read_bytes (memory w) (base (rhea_memmap RHEA_ROM) + off) n.

Definition is_rom_mount (e : Event) : bool :=
  match e with
  | EvMount a _ => a =? base (rhea_memmap RHEA_ROM)
  | _ => false
  end.

Definition is_mount (e : Event) : bool :=
  match e with EvMount _ _ => true | _ => false end.

Definition is_blob_write (e : Event) : bool :=
  match e with EvBlob _ _ _ => true | _ => false end.

Definition is_realize (e : Event) : bool :=
  match e with EvRealize _ => true | _ => false end.

(** The index into [s->soc] an event was made with. *)
Definition soc_index (e : Event) : option Z :=
  match e with
  | EvInitChild i _ | EvSetProp i _ _ | EvRealize i => Some i
  | _ => None
  end.

(** Every [q]-event of the log has a [p]-event before it. *)
Definition preceded_by (p q : Event -> bool) (tr : list Event) : Prop :=
  forall (n : nat) e,
    tr !! n = Some e -> q e = true ->
    exists (m : nat) e', (m < n)%nat /\ tr !! m = Some e' /\ p e' = true.

(** Every [p]-event of the log lies before every [q]-event. *)
Definition all_before (p q : Event -> bool) (tr : list Event) : Prop :=
  forall (n m : nat) e e',
    tr !! n = Some e -> p e = true ->
    tr !! m = Some e' -> q e' = true -> (n < m)%nat.

(** The calls the loop body makes for socket [i], in order. *)
Definition socket_events (P : Platform) (ms : MachineState) (i : Z)
  : list Event :=
  [ EvInitChild i ("soc" +:+ pretty i);
    EvSetProp i "cpu-type" (PStr (cpu_type ms));
    EvSetProp i "hartid-base" (PInt (riscv_socket_first_hartid P ms i));
    EvSetProp i "num-harts" (PInt (riscv_socket_hart_count P ms i));
    EvSetProp i "resetvec" (PInt (base (rhea_memmap RHEA_ROM)));
    EvRealize i ].

(** The hart array of socket [i] once its four properties are set. *)
Definition configured_hart_array (P : Platform) (ms : MachineState) (i : Z)
  (realized : bool) : RISCVHartArrayState :=
  {| ha_name := "soc" +:+ pretty i;
     ha_props :=
       list_to_map
         [ ("resetvec", PInt (base (rhea_memmap RHEA_ROM)));
           ("num-harts", PInt (riscv_socket_hart_count P ms i));
           ("hartid-base", PInt (riscv_socket_first_hartid P ms i));
           ("cpu-type", PStr (cpu_type ms)) ];
     ha_realized := realized |}.

(** The two regions the board creates. *)
Definition rom_region : MemoryRegion :=
  {| mr_name := "riscv.rhea.mrom";
     mr_size := size (rhea_memmap RHEA_ROM);
     mr_kind := KindRom |}.

Definition sram_region : MemoryRegion :=
  {| mr_name := "riscv.rhea.sram";
     mr_size := size (rhea_memmap RHEA_SRAM);
     mr_kind := KindRam |}.

(** The bytes handed to the blob writer. *)
Definition reset_blob : list Z :=
  take (Z.to_nat (sizeof_words reset_vec)) (object_bytes reset_vec).

(** The calls made after the loop, in order, when both regions can be
    created. *)
Definition memory_events (ms : MachineState) : list Event :=
  [ EvMount (base (rhea_memmap RHEA_DRAM)) (ram ms);
    EvRegionInit "riscv.rhea.mrom" (size (rhea_memmap RHEA_ROM)) KindRom;
    EvMount (base (rhea_memmap RHEA_ROM)) rom_region;
    EvBlob "mrom.reset" (base (rhea_memmap RHEA_ROM)) reset_blob;
    EvRegionInit "riscv.rhea.sram" (size (rhea_memmap RHEA_SRAM)) KindRam;
    EvMount (base (rhea_memmap RHEA_SRAM)) sram_region ].

(** The steps of [rhea_machine_init] after the loop. *)
Definition map_memory (P : Platform) (ms : MachineState) : M unit :=
  memory_region_add_subregion (base (rhea_memmap RHEA_DRAM)) (ram ms) ;;
  mask_rom <- memory_region_init_rom P "riscv.rhea.mrom"
                (size (rhea_memmap RHEA_ROM)) ;;
  memory_region_add_subregion (base (rhea_memmap RHEA_ROM)) mask_rom ;;
  seed_reset_vector ;;
  sram <- memory_region_init_ram P "riscv.rhea.sram"
            (size (rhea_memmap RHEA_SRAM)) ;;
  memory_region_add_subregion (base (rhea_memmap RHEA_SRAM)) sram.

(** The world after the first [k] of these steps: what is mounted, what
    the memory holds, and the log. *)
Definition memory_mapped (ms : MachineState) (k : nat) (w : World) : World :=
  {| soc := soc w;
     system_memory :=
       system_memory w
         ++ (if decide (1 <= k)%nat
             then [(base (rhea_memmap RHEA_DRAM), ram ms)] else [])
         ++ (if decide (3 <= k)%nat
             then [(base (rhea_memmap RHEA_ROM), rom_region)] else [])
         ++ (if decide (6 <= k)%nat
             then [(base (rhea_memmap RHEA_SRAM), sram_region)] else []);
     memory :=
       if decide (4 <= k)%nat
       then write_bytes (memory w) (base (rhea_memmap RHEA_ROM)) reset_blob
       else memory w;
     trace := trace w ++ take k (memory_events ms) |}.

(** The world after the loop body has run for socket [i]: the slot holds
    the configured hart array, realized or not, and the log has grown by
    the calls of that round. *)
Definition socket_done (P : Platform) (ms : MachineState) (i : Z)
  (realized : bool) (w : World) : World :=
  {| soc := <[Z.to_nat i := Some (configured_hart_array P ms i realized)]>
              (soc w);
     system_memory := system_memory w;
     memory := memory w;
     trace := trace w ++ socket_events P ms i |}.

(** The worlds the loop body has run through for the sockets
    [i, i+1, ..., i+rounds-1], each realized. *)
Fixpoint sockets_done (P : Platform) (ms : MachineState) (rounds : nat)
  (i : Z) (w : World) : World :=
  match rounds with
  | O => w
  | S r => sockets_done P ms r (i + 1) (socket_done P ms i true w)
  end.

(** A logged call on [s->soc] whose index lies inside the array. *)
Definition soc_event_in_bounds (e : Event) : Prop :=
  exists j, soc_index e = Some j /\ 0 <= j < RHEA_SOCKETS_MAX.

(** What the loop may change: slots of [s->soc] and the log, the latter
    only by calls on [s->soc]. *)
Definition soc_effect (w w' : World) : Prop :=
  system_memory w' = system_memory w /\
  memory w' = memory w /\
  length (soc w') = length (soc w) /\
  exists evs, trace w' = trace w ++ evs /\ Forall soc_event_in_bounds evs.

Definition not_faulted {A} (o : Outcome A) : Prop :=
  match o with
  | Faulted _ _ => False
  | _ => True
  end.

(** The order the spec asks for: the ROM is mounted before the blob is
    written and before any hart array is realized. *)
Definition rom_mounted_first (tr : list Event) : Prop :=
  preceded_by is_rom_mount is_blob_write tr /\
  preceded_by is_rom_mount is_realize tr.

(** The memory map the spec states: the three mounted ranges, the reserved
    window left out, and no two mounted ranges intersecting. *)
Definition specified_ranges : list (Z * Z) :=
  [ (0x0, 0x40000);
    (0x100000, 0x180000);
    (0x40000000, 0x40000000 + 570 * MiB) ].

Definition reserved_window : Z * Z := (0x06000000, 0x06000100).

Definition memory_map_as_specified (w : World) : Prop :=
  mounted_ranges w ≡ₚ specified_ranges /\
  (forall r, r ∈ mounted_ranges w -> ~ ranges_intersect r reserved_window) /\
  pairwise_disjoint (mounted_ranges w).

(** The default configuration, but with a RAM backing of 1 GiB. *)
Definition gibibyte_machine : MachineState :=
  {| cpu_type := "rv64";
     ram := {| mr_name := "riscv.rhea.dram";
               mr_size := 1024 * MiB;
               mr_kind := KindRam |};
     topology := [[0]] |}.

(** A platform and a machine state to evaluate the board on: the modelled
    collaborators, and the default configuration of the machine class. The
    name given for the base processor type plays no role. *)
Definition example_platform : Platform := model_platform "rv64".

Definition example_machine : MachineState :=
  default_machine (rhea_machine_class_init example_platform).

(** The default configuration with another topology. *)
Definition with_topology (t : list (list Z)) : MachineState :=
  {| cpu_type := cpu_type example_machine;
     ram := ram example_machine;
     topology := t |}.

(** A platform whose topology provider finds no hart count. *)
Definition countless_platform : Platform :=
  {| riscv_socket_count := topo_socket_count;
     riscv_socket_check_hartids := topo_check_hartids;
     riscv_socket_first_hartid := topo_first_hartid;
     riscv_socket_hart_count := fun _ _ => -1;
     TYPE_RISCV_CPU_BASE := "rv64";
     realize_succeeds := fun _ _ => true;
     region_init_succeeds := fun _ _ => true |}.

(** A machine that [rhea_machine_init] hands back: the hart array of every
    socket configured and realized, the three regions mounted, and the
    reset blob in the ROM. *)
Definition machine_complete (P : Platform) (ms : MachineState) (w : World)
  : Prop :=
  (forall i, 0 <= i < riscv_socket_count P ms ->
     soc w !! Z.to_nat i = Some (Some (configured_hart_array P ms i true))) /\
  system_memory w =
    [ (base (rhea_memmap RHEA_DRAM), ram ms);
      (base (rhea_memmap RHEA_ROM), rom_region);
      (base (rhea_memmap RHEA_SRAM), sram_region) ] /\
  rom_bytes w 0 16 = reset_blob.

(** The fatal errors raised inside the loop. *)
Definition raised_in_loop (e : Fatal) : bool :=
  match e with
  | DiscontinuousHartIds _ | MissingBaseHartId _
  | MissingHartCount _ | RealizeFailed _ => true
  | TooManySockets | RegionInitFailed _ => false
  end.

(** An outcome the loop can have while its indices stay inside [s->soc]. *)
Definition loop_outcome {A} (o : Outcome A) : Prop :=
  match o with
  | Returned _ _ => True
  | Exited e _ => raised_in_loop e = true
  | Faulted _ _ => False
  end.

(** * Properties *)

(** ** Observations beyond the spec *)

(** The outcome of the steps after the loop, case by case: both regions
    created, the SRAM refused, the ROM refused. *)
Definition memory_outcome (P : Platform) (ms : MachineState) (w : World)
  : Outcome unit :=
  if region_init_succeeds P "riscv.rhea.mrom" (size (rhea_memmap RHEA_ROM))
  then
    if region_init_succeeds P "riscv.rhea.sram" (size (rhea_memmap RHEA_SRAM))
    then Returned tt (memory_mapped ms 6 w)
    else Exited (RegionInitFailed "riscv.rhea.sram") (memory_mapped ms 5 w)
  else Exited (RegionInitFailed "riscv.rhea.mrom") (memory_mapped ms 2 w).

(** Every call of a run in which nothing fails, in order. *)
Definition all_calls (P : Platform) (ms : MachineState) : list Event :=
  flat_map (socket_events P ms) (seqZ 0 (riscv_socket_count P ms))
    ++ memory_events ms.

(** The socket the board admits passes its checks and is realized. *)
Definition socket_passes (P : Platform) (ms : MachineState) : Prop :=
  riscv_socket_check_hartids P ms 0 = true /\
  0 <= riscv_socket_first_hartid P ms 0 /\
  0 <= riscv_socket_hart_count P ms 0 /\
  realize_succeeds P 0 (configured_hart_array P ms 0 false) = true.

(** Modelled from the spec: the fetch of a hart belongs to the execution
    core, outside the file verified here; it reads a 32-bit word as four
    bytes, least significant first. *)
Definition fetch32 (m : gmap Z Z) (a : Z) : Z := le32 (read_bytes m a 4).

(** The modelled platform, but with [sysbus_realize] succeeding as
    [realize_ok] says and the creation of the region named [bad] failing. *)
Definition failing_platform (realize_ok : bool) (bad : string) : Platform :=
  {| riscv_socket_count := topo_socket_count;
     riscv_socket_check_hartids := topo_check_hartids;
     riscv_socket_first_hartid := topo_first_hartid;
     riscv_socket_hart_count := topo_hart_count;
     TYPE_RISCV_CPU_BASE := "rv64";
     realize_succeeds := fun _ _ => realize_ok;
     region_init_succeeds := fun name _ => negb (String.eqb name bad) |}.

Create HintDb rhea.

(** Closed goals about concrete configurations are settled by evaluation. *)
Ltac evaluated :=
  vm_compute;
  first [ reflexivity | discriminate
        | split; first [reflexivity | discriminate] ].

(** ** The loop body *)

Section Run.

Context (P : Platform) (ms : MachineState).

Lemma in_soc_bounds_spec (i : Z) :
  in_soc_bounds i = true <-> 0 <= i < RHEA_SOCKETS_MAX.
Proof. unfold in_soc_bounds. rewrite andb_true_iff. lia. Qed.

Lemma socket_checks_eq (i : Z) (w : World) :
  socket_checks P ms i w =
    if negb (riscv_socket_check_hartids P ms i)
    then Exited (DiscontinuousHartIds i) w
    else if riscv_socket_first_hartid P ms i <? 0
    then Exited (MissingBaseHartId i) w
    else if riscv_socket_hart_count P ms i <? 0
    then Exited (MissingHartCount i) w
    else Returned
           (riscv_socket_first_hartid P ms i, riscv_socket_hart_count P ms i)
           w.
Proof.
  unfold socket_checks, bind, when, fatal, ret.
  destruct (negb _); [reflexivity |].
  destruct (_ <? 0); [reflexivity |].
  destruct (_ <? 0); reflexivity.
Qed.

Lemma socket_create_eq (i : Z) (w : World) :
  in_soc_bounds i = true ->
  (Z.to_nat i < length (soc w))%nat ->
  socket_create P ms i
    (riscv_socket_first_hartid P ms i) (riscv_socket_hart_count P ms i) w =
    if realize_succeeds P i (configured_hart_array P ms i false)
    then Returned tt (socket_done P ms i true w)
    else Exited (RealizeFailed i) (socket_done P ms i false w).
Proof.
  intros Hb Hlen.
  unfold socket_create, object_initialize_child, object_property_set_str,
    object_property_set_int, object_property_set, sysbus_realize, soc_slot.
  rewrite Hb.
  unfold bind, ret, emit, set_soc, get_soc, fatal.
  repeat (cbn [soc trace system_memory memory ha_name ha_props ha_realized];
          rewrite ?list_insert_insert_eq;
          try rewrite list_lookup_insert_eq by exact Hlen).
  unfold socket_done, configured_hart_array, socket_events.
  cbn [list_to_map foldr fst snd uncurry].
  destruct (realize_succeeds _ _ _);
    cbn [soc trace system_memory memory];
    rewrite ?list_insert_insert_eq, <- !app_assoc; reflexivity.
Qed.

Lemma init_socket_eq (i : Z) (w : World) :
  in_soc_bounds i = true ->
  (Z.to_nat i < length (soc w))%nat ->
  init_socket P ms i w =
    if negb (riscv_socket_check_hartids P ms i)
    then Exited (DiscontinuousHartIds i) w
    else if riscv_socket_first_hartid P ms i <? 0
    then Exited (MissingBaseHartId i) w
    else if riscv_socket_hart_count P ms i <? 0
    then Exited (MissingHartCount i) w
    else if realize_succeeds P i (configured_hart_array P ms i false)
    then Returned tt (socket_done P ms i true w)
    else Exited (RealizeFailed i) (socket_done P ms i false w).
Proof.
  intros Hb Hlen. unfold init_socket, bind.
  rewrite socket_checks_eq.
  destruct (negb _); [reflexivity |].
  destruct (_ <? 0); [reflexivity |].
  destruct (_ <? 0); [reflexivity |].
  cbn [fst snd]. apply socket_create_eq; assumption.
Qed.

Lemma soc_effect_refl (w : World) : soc_effect w w.
Proof.
  repeat split. exists []. rewrite app_nil_r. split; [reflexivity | constructor].
Qed.

Lemma soc_effect_trans (w1 w2 w3 : World) :
  soc_effect w1 w2 -> soc_effect w2 w3 -> soc_effect w1 w3.
Proof.
  intros (Hs1 & Hm1 & Hl1 & evs1 & Ht1 & Hf1) (Hs2 & Hm2 & Hl2 & evs2 & Ht2 & Hf2).
  repeat split; try congruence.
  exists (evs1 ++ evs2). split.
  - rewrite Ht2, Ht1, app_assoc. reflexivity.
  - apply Forall_app. split; assumption.
Qed.

Lemma socket_events_in_bounds (i : Z) :
  in_soc_bounds i = true ->
  Forall soc_event_in_bounds (socket_events P ms i).
Proof.
  intros Hb. apply in_soc_bounds_spec in Hb.
  unfold socket_events.
  repeat constructor; exists i; (split; [reflexivity | exact Hb]).
Qed.

Lemma socket_done_effect (i : Z)
  (r : bool) (w : World) :
  in_soc_bounds i = true -> soc_effect w (socket_done P ms i r w).
Proof.
  intros Hb. unfold soc_effect, socket_done; cbn [soc trace system_memory memory].
  repeat split.
  - apply length_insert.
  - exists (socket_events P ms i). split; [reflexivity |].
    apply socket_events_in_bounds; exact Hb.
Qed.

#[local] Hint Resolve soc_effect_refl socket_done_effect : rhea.

Lemma init_socket_effect (i : Z) (w : World) :
  in_soc_bounds i = true ->
  (Z.to_nat i < length (soc w))%nat ->
  loop_outcome (init_socket P ms i w) /\
  soc_effect w (world_of (init_socket P ms i w)).
Proof.
  intros Hb Hlen. rewrite init_socket_eq by assumption.
  repeat match goal with
         | |- context [if ?b then _ else _] => destruct b
         end;
    (split; [easy | cbn [world_of]; auto with rhea]).
Qed.

(** ** The loop *)

(** While the indices stay inside [s->soc], the loop neither faults nor
    touches anything but [s->soc] and the log. *)
Lemma for_loop_effect (rounds : nat) :
  forall (i : Z) (w : World),
    0 <= i ->
    i + Z.of_nat rounds <= RHEA_SOCKETS_MAX ->
    length (soc w) = Z.to_nat RHEA_SOCKETS_MAX ->
    loop_outcome (for_loop rounds i (init_socket P ms) w) /\
    soc_effect w (world_of (for_loop rounds i (init_socket P ms) w)).
Proof.
  induction rounds as [| r IH]; intros i w Hi Hmax Hlen.
  - cbn. split; [exact I | auto with rhea].
  - assert (Hb : in_soc_bounds i = true) by (apply in_soc_bounds_spec; lia).
    assert (Hlt : (Z.to_nat i < length (soc w))%nat) by lia.
    destruct (init_socket_effect i w Hb Hlt) as [Hnf Heff].
    cbn [for_loop]. unfold bind.
    destruct (init_socket P ms i w) as [[] w1 | e w1 | u w1];
      cbn [world_of] in Heff; [| split; [exact Hnf | exact Heff] | contradiction].
    destruct (IH (i + 1) w1) as [Hnf' Heff']; [lia | lia | |].
    { destruct Heff as (_ & _ & Hl & _). congruence. }
    split; [exact Hnf' |].
    eapply soc_effect_trans; eassumption.
Qed.

(** A loop that returns has run the body for every socket in turn. *)
Lemma for_loop_returned (rounds : nat) :
  forall (i : Z) (w w' : World),
    0 <= i ->
    i + Z.of_nat rounds <= RHEA_SOCKETS_MAX ->
    length (soc w) = Z.to_nat RHEA_SOCKETS_MAX ->
    for_loop rounds i (init_socket P ms) w = Returned tt w' ->
    w' = sockets_done P ms rounds i w.
Proof.
  induction rounds as [| r IH]; intros i w w' Hi Hmax Hlen Hrun.
  - cbn in Hrun. injection Hrun as <-. reflexivity.
  - assert (Hb : in_soc_bounds i = true) by (apply in_soc_bounds_spec; lia).
    assert (Hlt : (Z.to_nat i < length (soc w))%nat) by lia.
    cbn [for_loop sockets_done] in *. unfold bind in Hrun.
    rewrite init_socket_eq in Hrun by assumption.
    destruct (negb _); [discriminate |].
    destruct (_ <? 0); [discriminate |].
    destruct (_ <? 0); [discriminate |].
    destruct (realize_succeeds _ _ _); [| discriminate].
    apply IH in Hrun; [exact Hrun | lia | lia |].
    unfold socket_done; cbn [soc]. rewrite length_insert. exact Hlen.
Qed.

(** ** The steps after the loop *)

Lemma rhea_machine_init_steps :
  rhea_machine_init P ms =
    (when (RHEA_SOCKETS_MAX <? riscv_socket_count P ms) (fatal TooManySockets) ;;
     init_sockets P ms ;;
     map_memory P ms).
Proof. reflexivity. Qed.

Lemma covered_app_r (sm : list (Z * MemoryRegion)) (s : Z * MemoryRegion)
  (addr len : Z) :
  fst s <= addr -> addr + len <= fst s + mr_size (snd s) ->
  covered (sm ++ [s]) addr len = true.
Proof.
  intros Hlo Hhi. unfold covered. rewrite existsb_app. cbn.
  apply Z.leb_le in Hlo, Hhi. rewrite Hlo, Hhi. cbn. apply orb_true_r.
Qed.

Lemma rom_covers_blob (sm : list (Z * MemoryRegion)) :
  covered (sm ++ [(base (rhea_memmap RHEA_ROM), rom_region)])
    (base (rhea_memmap RHEA_ROM)) (sizeof_words reset_vec) = true.
Proof. apply covered_app_r; vm_compute; discriminate. Qed.

Lemma map_memory_eq (w : World) :
  map_memory P ms w =
    if region_init_succeeds P "riscv.rhea.mrom" (size (rhea_memmap RHEA_ROM))
    then
      if region_init_succeeds P "riscv.rhea.sram" (size (rhea_memmap RHEA_SRAM))
      then Returned tt (memory_mapped ms 6 w)
      else Exited (RegionInitFailed "riscv.rhea.sram") (memory_mapped ms 5 w)
    else Exited (RegionInitFailed "riscv.rhea.mrom") (memory_mapped ms 2 w).
Proof.
  unfold map_memory, memory_region_init_rom, memory_region_init_ram,
    memory_region_init, memory_region_add_subregion, seed_reset_vector,
    rom_add_blob_fixed_as, memory_mapped.
  unfold bind, emit, ret, fatal; cbn [soc trace system_memory memory].
  destruct (region_init_succeeds P "riscv.rhea.mrom" _).
  - cbn [soc trace system_memory memory]. fold rom_region.
    rewrite rom_covers_blob.
    destruct (region_init_succeeds P "riscv.rhea.sram" _);
      cbn [soc trace system_memory memory]; fold sram_region reset_blob;
      repeat case_decide; try lia;
      rewrite <- ?app_assoc, ?app_nil_r; reflexivity.
  - repeat case_decide; try lia.
    rewrite <- ?app_assoc, ?app_nil_r; reflexivity.
Qed.

Lemma memory_mapped_0 (w : World) :
  memory_mapped ms 0 w = w.
Proof.
  destruct w. unfold memory_mapped; cbn. rewrite !app_nil_r. reflexivity.
Qed.

(** ** The whole function *)

(** The shape of every run from a world whose [s->soc] has its declared
    capacity: the run does not fault; it leaves the world reached by some
    rounds of the loop followed by the first [k] steps after the loop; and
    [k] is settled by the way the run ends. *)
Lemma run_shape (w : World) :
  length (soc w) = Z.to_nat RHEA_SOCKETS_MAX ->
  exists (w1 : World) (k : nat),
    soc_effect w w1 /\
    world_of (rhea_machine_init P ms w) = memory_mapped ms k w1 /\
    match rhea_machine_init P ms w with
    | Returned _ _ =>
        k = 6%nat /\ riscv_socket_count P ms <= RHEA_SOCKETS_MAX /\
        w1 = sockets_done P ms (Z.to_nat (riscv_socket_count P ms)) 0 w
    | Exited e _ =>
        match e with
        | RegionInitFailed _ => k = 2%nat \/ k = 5%nat
        | _ => k = 0%nat
        end
    | Faulted _ _ => False
    end.
Proof.
  intros Hlen. rewrite rhea_machine_init_steps. unfold bind at 1, when.
  destruct (RHEA_SOCKETS_MAX <? riscv_socket_count P ms) eqn:Hguard.
  - exists w, 0%nat. cbn.
    rewrite memory_mapped_0. auto using soc_effect_refl.
  - apply Z.ltb_ge in Hguard. cbn. unfold bind.
    destruct (for_loop_effect (Z.to_nat (riscv_socket_count P ms)) 0 w)
      as [Hout Heff]; [lia | unfold RHEA_SOCKETS_MAX in *; lia | exact Hlen |].
    fold (init_sockets P ms) in Hout, Heff.
    destruct (init_sockets P ms w) as [[] w1 | e w1 | u w1] eqn:Hloop;
      cbn [world_of loop_outcome] in Hout, Heff; [| | contradiction].
    + assert (Hw1 : w1 = sockets_done P ms (Z.to_nat (riscv_socket_count P ms)) 0 w).
      { eapply for_loop_returned; [| | exact Hlen | exact Hloop];
          unfold RHEA_SOCKETS_MAX in *; lia. }
      rewrite map_memory_eq.
      destruct (region_init_succeeds P "riscv.rhea.mrom" _);
        [destruct (region_init_succeeds P "riscv.rhea.sram" _) |].
      * exists w1, 6%nat. cbn. auto.
      * exists w1, 5%nat. cbn. auto.
      * exists w1, 2%nat. cbn. auto.
    + exists w1, 0%nat. cbn. rewrite memory_mapped_0.
      repeat split; [apply Heff.. |].
      destruct e; try reflexivity; discriminate.
Qed.

(** ** The rounds of the loop *)

Lemma sockets_done_trace (rounds : nat) :
  forall (i : Z) (w : World),
    trace (sockets_done P ms rounds i w) =
      trace w ++ flat_map (socket_events P ms) (seqZ i (Z.of_nat rounds)).
Proof.
  induction rounds as [| r IH]; intros i w.
  - cbn. rewrite app_nil_r. reflexivity.
  - cbn [sockets_done]. rewrite IH, (seqZ_cons i) by lia.
    replace (Z.pred (Z.of_nat (S r))) with (Z.of_nat r) by lia.
    replace (Z.succ i) with (i + 1) by lia.
    cbn [flat_map socket_done trace]. rewrite <- app_assoc. reflexivity.
Qed.

Lemma sockets_done_frame (rounds : nat) :
  forall (i : Z) (w : World),
    system_memory (sockets_done P ms rounds i w) = system_memory w /\
    memory (sockets_done P ms rounds i w) = memory w /\
    length (soc (sockets_done P ms rounds i w)) = length (soc w).
Proof.
  induction rounds as [| r IH]; intros i w; [easy |].
  cbn [sockets_done]. destruct (IH (i + 1) (socket_done P ms i true w))
    as (-> & -> & ->).
  unfold socket_done; cbn. rewrite length_insert. easy.
Qed.

Lemma sockets_done_below (rounds : nat) :
  forall (i : Z) (w : World) (j : nat),
    0 <= i -> (j < Z.to_nat i)%nat ->
    soc (sockets_done P ms rounds i w) !! j = soc w !! j.
Proof.
  induction rounds as [| r IH]; intros i w j Hi Hj; [reflexivity |].
  cbn [sockets_done]. rewrite IH by lia.
  unfold socket_done; cbn [soc]. apply list_lookup_insert_ne. lia.
Qed.

(** After the loop has returned, the slot of each socket it went through
    holds that socket's hart array, configured and realized. *)
Lemma sockets_done_soc (rounds : nat) :
  forall (i : Z) (w : World) (j : Z),
    0 <= i -> i <= j < i + Z.of_nat rounds ->
    (Z.to_nat j < length (soc w))%nat ->
    soc (sockets_done P ms rounds i w) !! Z.to_nat j =
      Some (Some (configured_hart_array P ms j true)).
Proof.
  induction rounds as [| r IH]; intros i w j Hi Hj Hlen; [lia |].
  cbn [sockets_done].
  destruct (decide (j = i)) as [-> | Hne].
  - rewrite sockets_done_below by lia.
    unfold socket_done; cbn [soc]. apply list_lookup_insert_eq. exact Hlen.
  - apply IH; [lia | lia |].
    unfold socket_done; cbn [soc]. rewrite length_insert. exact Hlen.
Qed.

End Run.

(** ** The order of the calls *)

Lemma soc_event_kind (e : Event) :
  soc_event_in_bounds e ->
  is_mount e = false /\ is_rom_mount e = false /\ is_blob_write e = false.
Proof. intros (j & Hj & _). destruct e; cbn in Hj; easy. Qed.

Lemma memory_event_kind (ms : MachineState) (e : Event) :
  e ∈ memory_events ms -> is_realize e = false /\ soc_index e = None.
Proof.
  unfold memory_events. rewrite !elem_of_cons, elem_of_nil.
  intros [-> | [-> | [-> | [-> | [-> | [-> | []]]]]]]; easy.
Qed.

Lemma trace_order (ms : MachineState) (evs : list Event) (k : nat) :
  Forall soc_event_in_bounds evs ->
  preceded_by is_rom_mount is_blob_write (evs ++ take k (memory_events ms)) /\
  all_before is_realize is_rom_mount (evs ++ take k (memory_events ms)).
Proof.
  intros Hevs. rewrite Forall_lookup in Hevs. split.
  - intros n e Hn Hq.
    apply lookup_app_Some in Hn as [Hn | [Hge Hn]].
    { apply Hevs, soc_event_kind in Hn. destruct Hn as (_ & _ & Hn). congruence. }
    apply lookup_take_Some in Hn as [Hn Hlt].
    remember (n - length evs)%nat as idx eqn:Hidx.
    assert (Hblob : idx = 3%nat).
    { do 6 (destruct idx as [| idx];
            [cbn in Hn; injection Hn as <-;
             first [discriminate Hq | reflexivity] |]).
      discriminate Hn. }
    exists (length evs + 2)%nat, (EvMount (base (rhea_memmap RHEA_ROM)) rom_region).
    split; [lia |]. split; [| reflexivity].
    rewrite lookup_app_r by lia.
    replace (length evs + 2 - length evs)%nat with 2%nat by lia.
    rewrite lookup_take_lt by lia. reflexivity.
  - intros n m e e' Hn Hp Hm Hq.
    apply lookup_app_Some in Hn as [Hn | [_ Hn]].
    + apply lookup_lt_Some in Hn.
      apply lookup_app_Some in Hm as [Hm | [Hge _]]; [| lia].
      apply Hevs, soc_event_kind in Hm. destruct Hm as (_ & Hm & _). congruence.
    + apply lookup_take_Some in Hn as [Hn _].
      apply list_elem_of_lookup_2, memory_event_kind in Hn.
      destruct Hn as [Hn _]. congruence.
Qed.

Lemma initial_world_soc (mem : gmap Z Z) :
  length (soc (initial_world mem)) = Z.to_nat RHEA_SOCKETS_MAX.
Proof. reflexivity. Qed.

(** The log of a run from the initial world: calls on [s->soc], then the
    first [k] calls of the memory map; all six of them, after the calls of
    every socket in turn, when the run returns. *)
Lemma run_trace (P : Platform) (ms : MachineState) (mem : gmap Z Z) :
  exists (evs : list Event) (k : nat),
    Forall soc_event_in_bounds evs /\
    trace (world_of (rhea_machine_init P ms (initial_world mem))) =
      evs ++ take k (memory_events ms) /\
    (forall w, rhea_machine_init P ms (initial_world mem) = Returned tt w ->
       k = 6%nat /\
       evs = flat_map (socket_events P ms) (seqZ 0 (riscv_socket_count P ms))).
Proof.
  destruct (run_shape P ms (initial_world mem) (initial_world_soc mem))
    as (w1 & k & Heff & Hw & Hout).
  destruct Heff as (_ & _ & _ & evs & Htr & Hevs). cbn in Htr.
  exists evs, k. split; [exact Hevs |]. split.
  - rewrite Hw. unfold memory_mapped; cbn [trace]. rewrite Htr. reflexivity.
  - intros w Hrun. rewrite Hrun in Hout. destruct Hout as (-> & Hn & ->).
    split; [reflexivity |].
    rewrite sockets_done_trace in Htr. cbn in Htr. rewrite <- Htr.
    destruct (decide (0 <= riscv_socket_count P ms)).
    + rewrite Z2Nat.id by assumption. reflexivity.
    + rewrite Z2Nat.nonpos, !seqZ_nil by lia. reflexivity.
Qed.

(** C1, as stated, fails on the default configuration: the hart array of
    socket 0 is realized with nothing mounted yet. *)
Lemma rom_mounted_first_fails :
  ~ rom_mounted_first
      (trace (world_of
                (rhea_machine_init example_platform example_machine
                   (initial_world ∅)))).
Proof.
  intros [_ H].
  destruct (H 5%nat (EvRealize 0)) as (m & e & Hm & He & Hp);
    [vm_compute; reflexivity | reflexivity |].
  do 5 (destruct m as [| m];
        [vm_compute in He; injection He as <-; discriminate Hp |]).
  lia.
Qed.

(** C1, amended: in every run of [rhea_machine_init] from the initial
    world the ROM mount precedes the blob write, and every realization of a
    hart array precedes the ROM mount; a run that returns has logged the
    calls of each socket in turn, ending with its realization, and then the
    six calls of the memory map, the ROM mount and the blob write among
    them. *)
Theorem realize_then_rom_then_blob (P : Platform) (ms : MachineState)
  (mem : gmap Z Z) :
  preceded_by is_rom_mount is_blob_write
    (trace (world_of (rhea_machine_init P ms (initial_world mem)))) /\
  all_before is_realize is_rom_mount
    (trace (world_of (rhea_machine_init P ms (initial_world mem)))) /\
  (forall w,
     rhea_machine_init P ms (initial_world mem) = Returned tt w ->
     trace w =
       flat_map (socket_events P ms) (seqZ 0 (riscv_socket_count P ms))
         ++ memory_events ms).
Proof.
  destruct (run_trace P ms mem) as (evs & k & Hevs & Htr & Hret).
  rewrite Htr.
  destruct (trace_order ms evs k Hevs) as [Hblob Hreal].
  split; [exact Hblob |]. split; [exact Hreal |].
  intros w Hrun. destruct (Hret w Hrun) as [-> ->].
  rewrite Hrun in Htr. exact Htr.
Qed.

Lemma realize_then_rom_then_blob_witness :
  exists w,
    rhea_machine_init example_platform example_machine (initial_world ∅) =
      Returned tt w /\
    trace w =
      flat_map (socket_events example_platform example_machine)
        (seqZ 0 (riscv_socket_count example_platform example_machine))
        ++ memory_events example_machine.
Proof.
  eexists. split; [vm_compute; reflexivity |].
  apply (realize_then_rom_then_blob example_platform example_machine ∅).
  vm_compute. reflexivity.
Defined.

(** ** The memory map *)

(** What a run from the initial world leaves mounted and stored: the effect
    of the first [k] steps after the loop, all six when it returns. *)
Lemma run_memory (P : Platform) (ms : MachineState) (mem : gmap Z Z) :
  exists k : nat,
    system_memory (world_of (rhea_machine_init P ms (initial_world mem))) =
      system_memory (memory_mapped ms k (initial_world mem)) /\
    memory (world_of (rhea_machine_init P ms (initial_world mem))) =
      memory (memory_mapped ms k (initial_world mem)) /\
    (forall w, rhea_machine_init P ms (initial_world mem) = Returned tt w ->
       k = 6%nat) /\
    (forall e w, rhea_machine_init P ms (initial_world mem) = Exited e w ->
       is_configuration_error e = true -> k = 0%nat).
Proof.
  destruct (run_shape P ms (initial_world mem) (initial_world_soc mem))
    as (w1 & k & Heff & Hw & Hout).
  destruct Heff as (Hsm & Hmem & _). exists k.
  rewrite Hw. unfold memory_mapped; cbn [system_memory memory].
  rewrite Hsm, Hmem. repeat split.
  - intros w Hrun. rewrite Hrun in Hout. apply Hout.
  - intros e w Hrun He. rewrite Hrun in Hout. destruct e; easy.
Qed.

Lemma memmap_ranges :
  entry_range (rhea_memmap RHEA_ROM) = (0x0, 0x40000) /\
  entry_range (rhea_memmap RHEA_SRAM) = (0x100000, 0x180000) /\
  entry_range (rhea_memmap RHEA_UART0) = reserved_window /\
  entry_range (rhea_memmap RHEA_DRAM) = (0x40000000, 0x40000000 + 570 * MiB).
Proof. repeat split. Qed.

(** The ranges mounted after [k] steps of the memory map are among those of
    the RAM backing at the DRAM base, of the ROM and of the SRAM. *)
Lemma mounted_after (ms : MachineState) (mem : gmap Z Z) (k : nat) (r : Z * Z) :
  r ∈ mounted_ranges (memory_mapped ms k (initial_world mem)) ->
  r = (0x40000000, 0x40000000 + mr_size (ram ms)) \/
  r = (0x0, 0x40000) \/ r = (0x100000, 0x180000).
Proof.
  unfold mounted_ranges, memory_mapped; cbn [system_memory initial_world app].
  repeat case_decide; cbn; rewrite ?elem_of_cons, elem_of_nil; tauto.
Qed.

Lemma mounted_when_returned (P : Platform) (ms : MachineState)
  (mem : gmap Z Z) (w : World) :
  rhea_machine_init P ms (initial_world mem) = Returned tt w ->
  mounted_ranges w =
    [ (0x40000000, 0x40000000 + mr_size (ram ms));
      (0x0, 0x40000);
      (0x100000, 0x180000) ].
Proof.
  intros Hrun. destruct (run_memory P ms mem) as (k & Hsm & _ & Hk & _).
  rewrite Hrun in Hsm. cbn [world_of] in Hsm.
  unfold mounted_ranges. rewrite Hsm, (Hk w Hrun). reflexivity.
Qed.

(** C2, as stated, fails when the RAM backing has another size than the
    default: with 1 GiB the range mounted at the DRAM base ends at
    0x80000000. *)
Lemma memory_map_as_specified_fails :
  ~ memory_map_as_specified
      (world_of (rhea_machine_init example_platform gibibyte_machine
                   (initial_world ∅))).
Proof.
  intros (Hperm & _).
  assert (Hin : (0x40000000, 0x80000000) ∈ specified_ranges).
  { rewrite <- Hperm. vm_compute. left. }
  unfold specified_ranges in Hin.
  rewrite !elem_of_cons, elem_of_nil in Hin.
  destruct Hin as [H | [H | [H | []]]];
    [discriminate H | discriminate H |].
  injection H as H. vm_compute in H. discriminate H.
Qed.

(** C2, amended: when [rhea_machine_init] returns, the mounted ranges are
    the ROM at [0x0, 0x40000), the SRAM at [0x100000, 0x180000) and the RAM
    backing at [0x40000000, 0x40000000 + its size), which is 570 MiB when
    the backing has the default RAM size of the machine class; in every
    run, whatever is mounted leaves the reserved window
    [0x06000000, 0x06000100) free, and no two mounted ranges intersect. *)
Theorem memory_map_built (P : Platform) (ms : MachineState) (mem : gmap Z Z) :
  (forall w,
     rhea_machine_init P ms (initial_world mem) = Returned tt w ->
     mounted_ranges w ≡ₚ
       [ (0x0, 0x40000);
         (0x100000, 0x180000);
         (0x40000000, 0x40000000 + mr_size (ram ms)) ] /\
     (mr_size (ram ms) = default_ram_size (rhea_machine_class_init P) ->
      mounted_ranges w ≡ₚ specified_ranges)) /\
  (forall r,
     r ∈ mounted_ranges (world_of (rhea_machine_init P ms (initial_world mem))) ->
     ~ ranges_intersect r reserved_window) /\
  pairwise_disjoint
    (mounted_ranges (world_of (rhea_machine_init P ms (initial_world mem)))).
Proof.
  split; [| split].
  - intros w Hrun. rewrite (mounted_when_returned P ms mem w Hrun).
    assert (Hperm : forall sz : Z,
      [ (0x40000000, 0x40000000 + sz); (0x0, 0x40000); (0x100000, 0x180000) ]
        ≡ₚ [ (0x0, 0x40000); (0x100000, 0x180000);
             (0x40000000, 0x40000000 + sz) ]).
    { intros sz. apply (Permutation_cons_append [_; _]). }
    split; [apply Hperm |].
    intros ->. apply Hperm.
  - intros r Hr (a & Ha1 & Ha2).
    destruct (run_memory P ms mem) as (k & Hsm & _).
    unfold mounted_ranges in Hr. rewrite Hsm in Hr.
    apply mounted_after in Hr.
    unfold in_range, reserved_window in *.
    destruct Hr as [-> | [-> | ->]]; cbn in *; lia.
  - destruct (run_memory P ms mem) as (k & Hsm & _).
    unfold mounted_ranges. rewrite Hsm.
    intros i j r1 r2 Hij Hi Hj.
    unfold memory_mapped in Hi, Hj; cbn [system_memory initial_world app] in Hi, Hj.
    repeat case_decide; try lia; cbn in Hi, Hj.
    all: destruct i as [| [| [| i]]]; cbn in Hi; try discriminate Hi;
      destruct j as [| [| [| j]]]; cbn in Hj; try discriminate Hj;
      try (exfalso; apply Hij; reflexivity);
      injection Hi as <-; injection Hj as <-;
      intros (a & Ha1 & Ha2); unfold in_range in *; cbn in *;
      pose proof (eq_refl : KiB = 1024); lia.
Qed.

Lemma memory_map_built_witness :
  exists w,
    rhea_machine_init example_platform example_machine (initial_world ∅) =
      Returned tt w /\
    mounted_ranges w ≡ₚ specified_ranges.
Proof.
  eexists. split; [vm_compute; reflexivity |].
  apply (memory_map_built example_platform example_machine ∅);
    vm_compute; reflexivity.
Defined.

(** ** Bytes written and read back *)

Lemma read_byte_written (m : gmap Z Z) (a : Z) (bs : list Z) (k : nat) (b : Z) :
  bs !! k = Some b ->
  read_byte (write_bytes m a bs) (a + Z.of_nat k) = b.
Proof.
  intros Hk. unfold read_byte, write_bytes.
  erewrite lookup_union_Some_l; [reflexivity |].
  apply lookup_map_seqZ_Some. split; [lia |].
  replace (Z.to_nat (a + Z.of_nat k - a)) with k by lia. exact Hk.
Qed.

Lemma read_byte_outside (m : gmap Z Z) (a : Z) (bs : list Z) (x : Z) :
  x < a \/ a + Z.of_nat (length bs) <= x ->
  read_byte (write_bytes m a bs) x = read_byte m x.
Proof.
  intros Hx. unfold read_byte, write_bytes.
  rewrite lookup_union_r; [reflexivity |].
  apply lookup_map_seqZ_None. exact Hx.
Qed.

(** Reading back a stretch of what was written. *)
Lemma read_bytes_written (m : gmap Z Z) (a : Z) (bs : list Z) (off n : nat) :
  (off + n <= length bs)%nat ->
  read_bytes (write_bytes m a bs) (a + Z.of_nat off) n = take n (drop off bs).
Proof.
  intros Hlen. unfold read_bytes. apply list_eq. intros i.
  rewrite list_lookup_fmap.
  destruct (decide (i < n)%nat) as [Hi | Hi].
  - rewrite lookup_seq_lt by exact Hi. cbn.
    rewrite lookup_take_lt, lookup_drop by exact Hi.
    destruct (lookup_lt_is_Some_2 bs (off + i)%nat) as [b Hb]; [lia |].
    rewrite Hb. f_equal.
    replace (a + Z.of_nat off + Z.of_nat i) with (a + Z.of_nat (off + i)) by lia.
    apply read_byte_written. exact Hb.
  - rewrite lookup_seq_ge, lookup_take_ge by lia. reflexivity.
Qed.

Lemma write_bytes_twice (m : gmap Z Z) (a : Z) (bs : list Z) :
  write_bytes (write_bytes m a bs) a bs = write_bytes m a bs.
Proof.
  unfold write_bytes. rewrite (assoc_L (∪)), (idemp_L (∪)). reflexivity.
Qed.

(** ** The reset vector *)

Lemma reset_vec_words : reset_vec = [0x0000006f; 0; 0; 0].
Proof. reflexivity. Qed.

(** The decoder on a few known encodings: [j .+4], [j .-4], [jal ra, .+8],
    and [nop], which is no jump. *)
Example decode_jal_examples :
  decode_jal 0x0040006f = Some (0, 4) /\
  decode_jal 0xffdff06f = Some (0, -4) /\
  decode_jal 0x008000ef = Some (1, 8) /\
  decode_jal 0x00000013 = None.
Proof. repeat split. Qed.

Lemma reset_blob_bytes :
  reset_blob = [0x6f; 0; 0; 0; 0; 0; 0; 0; 0; 0; 0; 0; 0; 0; 0; 0].
Proof. reflexivity. Qed.

(** What the seeding call does to a world. *)
Lemma seed_reset_vector_eq (w : World) :
  seed_reset_vector w =
    Returned tt
      {| soc := soc w;
         system_memory := system_memory w;
         memory :=
           if covered (system_memory w) (base (rhea_memmap RHEA_ROM))
                (sizeof_words reset_vec)
           then write_bytes (memory w) (base (rhea_memmap RHEA_ROM)) reset_blob
           else memory w;
         trace :=
           trace w ++ [EvBlob "mrom.reset" (base (rhea_memmap RHEA_ROM))
                         reset_blob] |}.
Proof.
  unfold seed_reset_vector, rom_add_blob_fixed_as, bind, emit.
  fold reset_blob. cbn [soc system_memory memory trace].
  destruct (covered _ _ _); reflexivity.
Qed.

(** The ROM contents in a run that returned: the blob lies at the ROM
    base. *)
Lemma rom_when_returned (P : Platform) (ms : MachineState) (mem : gmap Z Z)
  (w : World) (off n : nat) :
  rhea_machine_init P ms (initial_world mem) = Returned tt w ->
  (off + n <= 16)%nat ->
  rom_bytes w (Z.of_nat off) n = take n (drop off reset_blob).
Proof.
  intros Hrun Hlen.
  destruct (run_memory P ms mem) as (k & _ & Hmem & Hk & _).
  rewrite Hrun in Hmem. cbn [world_of] in Hmem.
  unfold rom_bytes. rewrite Hmem, (Hk w Hrun).
  unfold memory_mapped; cbn [memory initial_world].
  rewrite decide_True by lia.
  apply read_bytes_written. rewrite reset_blob_bytes. exact Hlen.
Qed.

Lemma soc_events_no_blob (evs : list Event) :
  Forall soc_event_in_bounds evs -> List.filter is_blob_write evs = [].
Proof.
  induction 1 as [| e evs He _ IH]; [reflexivity |].
  cbn. apply soc_event_kind in He. destruct He as (_ & _ & ->). exact IH.
Qed.

(** C3: when [rhea_machine_init] returns, the blob has been written at the
    ROM base, which is the reset address 0x0, and the four ROM bytes there
    are 6F 00 00 00: the little-endian encoding of a jump with no link
    register and offset 0, a branch to itself. *)
Theorem reset_vector_seeded (P : Platform) (ms : MachineState)
  (mem : gmap Z Z) (w : World) :
  rhea_machine_init P ms (initial_world mem) = Returned tt w ->
  base (rhea_memmap RHEA_ROM) = 0x0 /\
  EvBlob "mrom.reset" (base (rhea_memmap RHEA_ROM)) reset_blob ∈ trace w /\
  rom_bytes w 0 4 = [0x6f; 0x00; 0x00; 0x00] /\
  branches_to_self (le32 (rom_bytes w 0 4)).
Proof.
  intros Hrun.
  assert (Hrom : rom_bytes w 0 4 = [0x6f; 0x00; 0x00; 0x00]).
  { apply (rom_when_returned P ms mem w 0 4 Hrun). lia. }
  split; [reflexivity |]. split; [| split; [exact Hrom |]].
  - destruct (run_trace P ms mem) as (evs & k & _ & Htr & Hret).
    destruct (Hret w Hrun) as [-> _].
    rewrite Hrun in Htr. cbn [world_of] in Htr. rewrite Htr.
    apply elem_of_app. right. cbn.
    rewrite !elem_of_cons. auto.
  - rewrite Hrom. reflexivity.
Qed.

Lemma reset_vector_seeded_witness :
  exists w,
    rhea_machine_init example_platform example_machine (initial_world ∅) =
      Returned tt w /\
    rom_bytes w 0 4 = [0x6f; 0x00; 0x00; 0x00].
Proof.
  eexists. split; [vm_compute; reflexivity |].
  apply (reset_vector_seeded example_platform example_machine ∅).
  vm_compute. reflexivity.
Defined.

(** C10: the blob handed to the writer is the whole of [reset_vec], four
    32-bit words of which only the first is initialized, that is 16 bytes;
    when [rhea_machine_init] returns it is the one blob written, ROM offsets
    0 to 3 hold 6F 00 00 00 and ROM offsets 4 to 15 hold zero, whatever the
    memory held before. *)
Theorem reset_blob_sixteen_bytes (P : Platform) (ms : MachineState)
  (mem : gmap Z Z) (w : World) :
  rhea_machine_init P ms (initial_world mem) = Returned tt w ->
  reset_vec = [0x0000006f; 0; 0; 0] /\
  sizeof_words reset_vec = 16 /\
  length reset_blob = 16%nat /\
  List.filter is_blob_write (trace w) =
    [EvBlob "mrom.reset" (base (rhea_memmap RHEA_ROM)) reset_blob] /\
  rom_bytes w 0 4 = [0x6f; 0x00; 0x00; 0x00] /\
  rom_bytes w 4 12 = replicate 12 0x00.
Proof.
  intros Hrun.
  split; [reflexivity |]. split; [reflexivity |]. split; [reflexivity |].
  split; [| split].
  - destruct (run_trace P ms mem) as (evs & k & Hevs & Htr & Hret).
    destruct (Hret w Hrun) as [-> _].
    rewrite Hrun in Htr. cbn [world_of] in Htr. rewrite Htr.
    rewrite List.filter_app, (soc_events_no_blob evs Hevs). reflexivity.
  - apply (rom_when_returned P ms mem w 0 4 Hrun). lia.
  - apply (rom_when_returned P ms mem w 4 12 Hrun). lia.
Qed.

Lemma reset_blob_sixteen_bytes_witness :
  exists w,
    rhea_machine_init example_platform example_machine (initial_world ∅) =
      Returned tt w /\
    rom_bytes w 0 4 = [0x6f; 0x00; 0x00; 0x00] /\
    rom_bytes w 4 12 = replicate 12 0x00.
Proof.
  eexists. split; [vm_compute; reflexivity |].
  apply (reset_blob_sixteen_bytes example_platform example_machine ∅).
  vm_compute. reflexivity.
Defined.

(** C8: seeding twice leaves the same bytes, and the same regions mounted,
    as seeding once; the bytes seeding leaves depend on nothing but the
    address space it is applied to; seeding once more after
    [rhea_machine_init] has returned changes no byte; and any two runs that
    return leave the same sixteen bytes at the ROM base. *)
Theorem seeding_idempotent_and_pure :
  (forall w,
     memory (world_of ((seed_reset_vector ;; seed_reset_vector) w)) =
       memory (world_of (seed_reset_vector w)) /\
     system_memory (world_of ((seed_reset_vector ;; seed_reset_vector) w)) =
       system_memory (world_of (seed_reset_vector w))) /\
  (forall w1 w2,
     system_memory w1 = system_memory w2 -> memory w1 = memory w2 ->
     memory (world_of (seed_reset_vector w1)) =
       memory (world_of (seed_reset_vector w2))) /\
  (forall P ms mem w,
     rhea_machine_init P ms (initial_world mem) = Returned tt w ->
     memory (world_of (seed_reset_vector w)) = memory w) /\
  (forall P1 ms1 mem1 w1 P2 ms2 mem2 w2,
     rhea_machine_init P1 ms1 (initial_world mem1) = Returned tt w1 ->
     rhea_machine_init P2 ms2 (initial_world mem2) = Returned tt w2 ->
     rom_bytes w1 0 16 = rom_bytes w2 0 16).
Proof.
  split; [| split; [| split]].
  - intros w. unfold bind. rewrite !seed_reset_vector_eq.
    cbn [world_of memory system_memory]. split; [| reflexivity].
    destruct (covered _ _ _); [apply write_bytes_twice | reflexivity].
  - intros w1 w2 Hsm Hmem. rewrite !seed_reset_vector_eq.
    cbn [world_of memory]. rewrite Hsm, Hmem. reflexivity.
  - intros P ms mem w Hrun. rewrite seed_reset_vector_eq. cbn [world_of memory].
    destruct (run_memory P ms mem) as (k & Hsm & Hmem & Hk & _).
    rewrite Hrun in Hsm, Hmem. cbn [world_of] in Hsm, Hmem.
    rewrite (Hk w Hrun) in Hsm, Hmem.
    destruct (covered _ _ _); [| reflexivity].
    rewrite Hmem. unfold memory_mapped; cbn [memory initial_world].
    rewrite decide_True by lia. apply write_bytes_twice.
  - intros P1 ms1 mem1 w1 P2 ms2 mem2 w2 Hrun1 Hrun2.
    pose proof (rom_when_returned P1 ms1 mem1 w1 0 16 Hrun1) as H1.
    pose proof (rom_when_returned P2 ms2 mem2 w2 0 16 Hrun2) as H2.
    change (Z.of_nat 0) with 0 in H1, H2.
    rewrite H1, H2 by lia. reflexivity.
Qed.

Lemma seeding_idempotent_and_pure_witness :
  exists w1 w2,
    rhea_machine_init example_platform example_machine (initial_world ∅) =
      Returned tt w1 /\
    rhea_machine_init example_platform gibibyte_machine
      (initial_world {[ 0 := 0xff; 5 := 0xff ]}) = Returned tt w2 /\
    memory (world_of (seed_reset_vector w1)) = memory w1 /\
    memory (world_of (seed_reset_vector (initial_world ∅))) =
      memory (world_of (seed_reset_vector
                          {| soc := []; system_memory := [];
                             memory := ∅; trace := [EvRealize 0] |})) /\
    rom_bytes w1 0 16 = rom_bytes w2 0 16.
Proof.
  destruct seeding_idempotent_and_pure as (_ & Hpure & Hagain & Hsame).
  do 2 eexists.
  split; [vm_compute; reflexivity |]. split; [vm_compute; reflexivity |].
  split; [| split].
  - apply (Hagain example_platform example_machine ∅). evaluated.
  - apply Hpure; reflexivity.
  - apply (Hsame example_platform example_machine ∅ _
             example_platform gibibyte_machine
             {[ 0 := 0xff; 5 := 0xff ]} _); evaluated.
Defined.

(** ** Validation *)

(** The texts reported for the four configuration errors. *)
Example error_messages :
  error_message TooManySockets =
    Some "number of sockets/nodes should be less than 1" /\
  error_message (DiscontinuousHartIds 0) =
    Some "discontinuous hartids in socket0" /\
  error_message (MissingBaseHartId 0) =
    Some "can't find hartid base for socket0" /\
  error_message (MissingHartCount 0) =
    Some "can't find hart count for socket0".
Proof. repeat split. Qed.

Lemma init_sockets_none (P : Platform) (ms : MachineState) (w : World) :
  riscv_socket_count P ms <= 0 -> init_sockets P ms w = Returned tt w.
Proof.
  intros Hn. unfold init_sockets. rewrite Z2Nat.nonpos by exact Hn. reflexivity.
Qed.

Lemma init_sockets_one (P : Platform) (ms : MachineState) (w : World) :
  riscv_socket_count P ms = 1 ->
  init_sockets P ms w = (init_socket P ms 0 ;; ret tt) w.
Proof. intros Hn. unfold init_sockets. rewrite Hn. reflexivity. Qed.

(** A fatal error of the checks of the one socket the board admits is the
    outcome of the whole function. *)
Lemma socket_checks_exit (P : Platform) (ms : MachineState) (i : Z)
  (w w' : World) (e : Fatal) :
  riscv_socket_count P ms <= RHEA_SOCKETS_MAX ->
  0 <= i < riscv_socket_count P ms ->
  socket_checks P ms i w = Exited e w' ->
  rhea_machine_init P ms w = Exited e w'.
Proof.
  unfold RHEA_SOCKETS_MAX. intros Hmax Hi Hchk.
  assert (i = 0) as -> by lia.
  assert (Hn : riscv_socket_count P ms = 1) by lia.
  rewrite rhea_machine_init_steps. unfold bind at 1, when.
  rewrite Hn. cbn [Z.ltb Z.compare Pos.compare Pos.compare_cont].
  unfold RHEA_SOCKETS_MAX. cbn. unfold bind at 1.
  rewrite init_sockets_one by exact Hn.
  unfold bind at 1, init_socket. unfold bind at 1. rewrite Hchk. reflexivity.
Qed.

(** A configuration error leaves the world as the function found it. *)
Lemma configuration_error_untouched (P : Platform) (ms : MachineState)
  (w w' : World) (e : Fatal) :
  length (soc w) = Z.to_nat RHEA_SOCKETS_MAX ->
  rhea_machine_init P ms w = Exited e w' ->
  is_configuration_error e = true ->
  w' = w.
Proof.
  intros Hlen Hrun He. rewrite rhea_machine_init_steps in Hrun.
  unfold bind at 1, when in Hrun.
  destruct (RHEA_SOCKETS_MAX <? riscv_socket_count P ms) eqn:Hguard.
  { cbn in Hrun. injection Hrun as _ <-. reflexivity. }
  apply Z.ltb_ge in Hguard. unfold RHEA_SOCKETS_MAX in Hguard.
  cbn in Hrun. unfold bind at 1 in Hrun.
  destruct (decide (riscv_socket_count P ms <= 0)) as [Hn | Hn].
  - rewrite init_sockets_none, map_memory_eq in Hrun by exact Hn.
    destruct (region_init_succeeds P "riscv.rhea.mrom" _);
      [destruct (region_init_succeeds P "riscv.rhea.sram" _) |];
      try discriminate Hrun; injection Hrun as <- _; discriminate He.
  - rewrite init_sockets_one in Hrun by lia.
    unfold bind at 1 in Hrun.
    rewrite init_socket_eq in Hrun by (reflexivity || (rewrite Hlen; unfold RHEA_SOCKETS_MAX; lia)).
    destruct (negb _); [injection Hrun as _ <-; reflexivity |].
    destruct (_ <? 0); [injection Hrun as _ <-; reflexivity |].
    destruct (_ <? 0); [injection Hrun as _ <-; reflexivity |].
    destruct (realize_succeeds _ _ _);
      [| injection Hrun as <- _; discriminate He].
    unfold ret in Hrun. cbv beta iota in Hrun. rewrite map_memory_eq in Hrun.
    destruct (region_init_succeeds P "riscv.rhea.mrom" _);
      [destruct (region_init_succeeds P "riscv.rhea.sram" _) |];
      try discriminate Hrun; injection Hrun as <- _; discriminate He.
Qed.

(** A run that returns hands back a complete machine. *)
Lemma returned_complete (P : Platform) (ms : MachineState) (mem : gmap Z Z)
  (w : World) :
  rhea_machine_init P ms (initial_world mem) = Returned tt w ->
  machine_complete P ms w.
Proof.
  intros Hrun.
  destruct (run_shape P ms (initial_world mem) (initial_world_soc mem))
    as (w1 & k & Heff & Hw & Hout).
  rewrite Hrun in Hw, Hout. cbn [world_of] in Hw.
  destruct Hout as (-> & Hn & ->). split; [| split].
  - intros i Hi. rewrite Hw. unfold memory_mapped; cbn [soc].
    apply sockets_done_soc; [lia | lia |].
    rewrite initial_world_soc. lia.
  - rewrite Hw. unfold memory_mapped; cbn [system_memory].
    destruct (sockets_done_frame P ms (Z.to_nat (riscv_socket_count P ms)) 0
                (initial_world mem)) as (-> & _ & _).
    reflexivity.
  - apply (rom_when_returned P ms mem w 0 16 Hrun). lia.
Qed.

(** C4: more sockets than [RHEA_SOCKETS_MAX] = 1 end the run with
    [TooManySockets]; for a socket the loop reaches, the checks end the run
    with [DiscontinuousHartIds] when its hart ids are found discontinuous,
    else with [MissingBaseHartId] when no base hart id is found, else with
    [MissingHartCount] when no hart count is found. Each of these exits
    leaves the world as it was found, and a run that returns hands back a
    complete machine. *)
Theorem validation_failures (P : Platform) (ms : MachineState) :
  (forall w,
     RHEA_SOCKETS_MAX < riscv_socket_count P ms ->
     rhea_machine_init P ms w = Exited TooManySockets w) /\
  (forall w i,
     riscv_socket_count P ms <= RHEA_SOCKETS_MAX ->
     0 <= i < riscv_socket_count P ms ->
     riscv_socket_check_hartids P ms i = false ->
     rhea_machine_init P ms w = Exited (DiscontinuousHartIds i) w) /\
  (forall w i,
     riscv_socket_count P ms <= RHEA_SOCKETS_MAX ->
     0 <= i < riscv_socket_count P ms ->
     riscv_socket_check_hartids P ms i = true ->
     riscv_socket_first_hartid P ms i < 0 ->
     rhea_machine_init P ms w = Exited (MissingBaseHartId i) w) /\
  (forall w i,
     riscv_socket_count P ms <= RHEA_SOCKETS_MAX ->
     0 <= i < riscv_socket_count P ms ->
     riscv_socket_check_hartids P ms i = true ->
     0 <= riscv_socket_first_hartid P ms i ->
     riscv_socket_hart_count P ms i < 0 ->
     rhea_machine_init P ms w = Exited (MissingHartCount i) w) /\
  (forall mem e w,
     rhea_machine_init P ms (initial_world mem) = Exited e w ->
     is_configuration_error e = true ->
     w = initial_world mem) /\
  (forall mem w,
     rhea_machine_init P ms (initial_world mem) = Returned tt w ->
     machine_complete P ms w).
Proof.
  repeat split.
  - intros w Hn. rewrite rhea_machine_init_steps. unfold bind at 1, when.
    apply Z.ltb_lt in Hn. rewrite Hn. reflexivity.
  - intros w i Hmax Hi Hchk. apply (socket_checks_exit P ms i); [lia | lia |].
    rewrite socket_checks_eq, Hchk. reflexivity.
  - intros w i Hmax Hi Hchk Hbase. apply (socket_checks_exit P ms i); [lia | lia |].
    apply Z.ltb_lt in Hbase. rewrite socket_checks_eq, Hchk, Hbase. reflexivity.
  - intros w i Hmax Hi Hchk Hbase Hcnt.
    apply (socket_checks_exit P ms i); [lia | lia |].
    apply Z.ltb_ge in Hbase. apply Z.ltb_lt in Hcnt.
    rewrite socket_checks_eq, Hchk, Hbase, Hcnt. reflexivity.
  - intros mem e w Hrun He.
    apply (configuration_error_untouched P ms _ _ e (initial_world_soc mem) Hrun He).
  - apply (returned_complete P ms mem w H).
  - apply (returned_complete P ms mem w H).
  - apply (returned_complete P ms mem w H).
Qed.

Lemma validation_failures_witness :
  rhea_machine_init example_platform (with_topology [[0]; [1]])
    (initial_world ∅) = Exited TooManySockets (initial_world ∅) /\
  rhea_machine_init example_platform (with_topology [[0; 1; 3]])
    (initial_world ∅) = Exited (DiscontinuousHartIds 0) (initial_world ∅) /\
  rhea_machine_init example_platform (with_topology [[]])
    (initial_world ∅) = Exited (MissingBaseHartId 0) (initial_world ∅) /\
  rhea_machine_init countless_platform (with_topology [[0]])
    (initial_world ∅) = Exited (MissingHartCount 0) (initial_world ∅) /\
  machine_complete example_platform example_machine
    (world_of (rhea_machine_init example_platform example_machine
                 (initial_world ∅))).
Proof.
  split; [| split; [| split; [| split]]].
  - apply (validation_failures example_platform (with_topology [[0]; [1]])).
    evaluated.
  - apply (validation_failures example_platform (with_topology [[0; 1; 3]]));
      evaluated.
  - apply (validation_failures example_platform (with_topology [[]]));
      evaluated.
  - apply (validation_failures countless_platform (with_topology [[0]]));
      evaluated.
  - apply (validation_failures example_platform example_machine) with (mem := ∅).
    evaluated.
Defined.

(** ** Hart arrays *)

(** The run for one socket when every collaborator succeeds. *)
Lemma one_socket_run (P : Platform) (ms : MachineState) (w : World) :
  length (soc w) = Z.to_nat RHEA_SOCKETS_MAX ->
  riscv_socket_count P ms = 1 ->
  riscv_socket_check_hartids P ms 0 = true ->
  0 <= riscv_socket_first_hartid P ms 0 ->
  0 <= riscv_socket_hart_count P ms 0 ->
  realize_succeeds P 0 (configured_hart_array P ms 0 false) = true ->
  region_init_succeeds P "riscv.rhea.mrom" (size (rhea_memmap RHEA_ROM)) = true ->
  region_init_succeeds P "riscv.rhea.sram" (size (rhea_memmap RHEA_SRAM)) = true ->
  rhea_machine_init P ms w =
    Returned tt (memory_mapped ms 6 (socket_done P ms 0 true w)).
Proof.
  intros Hlen Hn Hchk Hbase Hcnt Hreal Hrom Hsram.
  apply Z.ltb_ge in Hbase, Hcnt.
  rewrite rhea_machine_init_steps. unfold bind at 1, when.
  rewrite Hn. change (RHEA_SOCKETS_MAX <? 1) with false. cbv beta iota.
  unfold ret at 1. cbv beta iota. unfold bind at 1.
  rewrite init_sockets_one by exact Hn. unfold bind at 1.
  rewrite init_socket_eq
    by (reflexivity || (rewrite Hlen; unfold RHEA_SOCKETS_MAX; lia)).
  rewrite Hchk, Hbase, Hcnt, Hreal. cbn [negb]. unfold ret. cbv beta iota.
  rewrite map_memory_eq, Hrom, Hsram. reflexivity.
Qed.

(** C5: when [rhea_machine_init] returns, the slot of every socket holds a
    hart array with the machine's processor type, the socket's base hart id
    and hart count and the ROM base as reset vector, realized; the calls
    were made socket by socket in ascending order, each socket's
    realization closing its calls. On one socket with one hart, hart id 0
    and the default processor type, with collaborators that succeed, the
    function returns with one realized hart array of base hart id 0 and
    reset vector 0x0, and the ROM starts with 6F 00 00 00. *)
Theorem hart_arrays_created (P : Platform) (ms : MachineState)
  (mem : gmap Z Z) :
  (forall w,
     rhea_machine_init P ms (initial_world mem) = Returned tt w ->
     (forall i, 0 <= i < riscv_socket_count P ms ->
        soc w !! Z.to_nat i =
          Some (Some (configured_hart_array P ms i true))) /\
     trace w =
       flat_map (socket_events P ms) (seqZ 0 (riscv_socket_count P ms))
         ++ memory_events ms) /\
  (riscv_socket_count P ms = 1 ->
   riscv_socket_check_hartids P ms 0 = true ->
   riscv_socket_first_hartid P ms 0 = 0 ->
   riscv_socket_hart_count P ms 0 = 1 ->
   cpu_type ms = default_cpu_type (rhea_machine_class_init P) ->
   realize_succeeds P 0 (configured_hart_array P ms 0 false) = true ->
   region_init_succeeds P "riscv.rhea.mrom" (size (rhea_memmap RHEA_ROM)) = true ->
   region_init_succeeds P "riscv.rhea.sram" (size (rhea_memmap RHEA_SRAM)) = true ->
   exists w,
     rhea_machine_init P ms (initial_world mem) = Returned tt w /\
     soc w =
       [ Some {| ha_name := "soc0";
                 ha_props :=
                   list_to_map
                     [ ("resetvec", PInt 0x0);
                       ("num-harts", PInt 1);
                       ("hartid-base", PInt 0);
                       ("cpu-type", PStr (TYPE_RISCV_CPU_BASE P)) ];
                 ha_realized := true |} ] /\
     List.filter is_realize (trace w) = [EvRealize 0] /\
     rom_bytes w 0 4 = [0x6f; 0x00; 0x00; 0x00]).
Proof.
  split.
  - intros w Hrun. split.
    + apply (returned_complete P ms mem w Hrun).
    + destruct (run_trace P ms mem) as (evs & k & _ & Htr & Hret).
      destruct (Hret w Hrun) as [-> ->].
      rewrite Hrun in Htr. exact Htr.
  - intros Hn Hchk Hbase Hcnt Hcpu Hreal Hrom Hsram.
    assert (Hrun : rhea_machine_init P ms (initial_world mem) =
                     Returned tt (memory_mapped ms 6
                       (socket_done P ms 0 true (initial_world mem)))).
    { apply one_socket_run; try assumption; [reflexivity | lia | lia]. }
    eexists. split; [exact Hrun |]. split; [| split].
    + unfold memory_mapped, socket_done, configured_hart_array; cbn [soc].
      rewrite Hbase, Hcnt, Hcpu. reflexivity.
    + reflexivity.
    + apply (rom_when_returned P ms mem _ 0 4 Hrun). lia.
Qed.

Lemma hart_arrays_created_witness :
  (exists w,
     rhea_machine_init example_platform gibibyte_machine (initial_world ∅) =
       Returned tt w /\
     trace w =
       flat_map (socket_events example_platform gibibyte_machine)
         (seqZ 0 (riscv_socket_count example_platform gibibyte_machine))
         ++ memory_events gibibyte_machine) /\
  exists w,
    rhea_machine_init example_platform example_machine (initial_world ∅) =
      Returned tt w /\
    soc w =
      [ Some {| ha_name := "soc0";
                ha_props :=
                  list_to_map
                    [ ("resetvec", PInt 0x0);
                      ("num-harts", PInt 1);
                      ("hartid-base", PInt 0);
                      ("cpu-type", PStr "rv64") ];
                ha_realized := true |} ] /\
    List.filter is_realize (trace w) = [EvRealize 0] /\
    rom_bytes w 0 4 = [0x6f; 0x00; 0x00; 0x00].
Proof.
  split.
  - eexists. split; [vm_compute; reflexivity |].
    apply (hart_arrays_created example_platform gibibyte_machine ∅).
    evaluated.
  - apply (hart_arrays_created example_platform example_machine ∅); evaluated.
Defined.

(** ** The modelled topology provider *)

Lemma hart_run_cons (b : Z) (c : nat) :
  hart_run b (S c) = b :: hart_run (b + 1) c.
Proof.
  unfold hart_run. rewrite seqZ_cons by lia.
  f_equal. f_equal; lia.
Qed.

Lemma hart_run_sorted (c : nat) : forall b, Sorted Z.le (hart_run b c).
Proof.
  induction c as [| c IH]; intros b.
  - constructor.
  - rewrite hart_run_cons. constructor; [apply IH |].
    destruct c as [| c]; [constructor |].
    rewrite hart_run_cons. constructor. lia.
Qed.

(** Sorting the hart ids of a contiguous run, listed in any order, gives
    the run. *)
Lemma sorted_hart_ids (ids : list Z) (b : Z) (c : nat) :
  ids ≡ₚ hart_run b c -> merge_sort Z.le ids = hart_run b c.
Proof.
  intros Hperm. apply (Sorted_unique Z.le).
  - apply Sorted_merge_sort, _.
  - apply hart_run_sorted.
  - rewrite merge_sort_Permutation. exact Hperm.
Qed.

Lemma foldr_min_least (h : Z) (t : list Z) :
  foldr Z.min h t ∈ h :: t /\ forall x, x ∈ h :: t -> foldr Z.min h t <= x.
Proof.
  induction t as [| y t [IHin IHle]]; cbn.
  - split; [left |]. intros x Hx. apply list_elem_of_singleton in Hx. lia.
  - split.
    + destruct (Z.min_spec y (foldr Z.min h t)) as [[_ ->] | [_ ->]].
      * right. left.
      * apply elem_of_cons in IHin as [-> | Hin]; [left | right; right; exact Hin].
    + intros x Hx. rewrite !elem_of_cons in Hx.
      destruct Hx as [-> | [-> | Hx]].
      * specialize (IHle h ltac:(left)). lia.
      * lia.
      * specialize (IHle x ltac:(right; exact Hx)). lia.
Qed.

(** The least hart id of a contiguous run, listed in any order, is its
    base. *)
Lemma least_hart_id (h : Z) (t : list Z) (b : Z) (c : nat) :
  h :: t ≡ₚ hart_run b c -> foldr Z.min h t = b.
Proof.
  intros Hperm. destruct (foldr_min_least h t) as [Hin Hle].
  assert (Hc : (0 < c)%nat).
  { apply Permutation_length in Hperm. unfold hart_run in Hperm.
    rewrite length_seqZ in Hperm. cbn in Hperm. lia. }
  assert (Hb : b ∈ h :: t).
  { rewrite Hperm. apply elem_of_seqZ. lia. }
  rewrite Hperm in Hin. apply elem_of_seqZ in Hin.
  specialize (Hle b Hb). lia.
Qed.

(** What the modelled provider answers for a socket whose hart ids form a
    run of [c] hart ids from [b]. *)
Lemma contiguous_socket (ms : MachineState) (i : nat) (ids : list Z)
  (b : Z) (c : nat) :
  topology ms !! i = Some ids ->
  ids ≡ₚ hart_run b c -> (0 < c)%nat ->
  topo_check_hartids ms (Z.of_nat i) = true /\
  topo_first_hartid ms (Z.of_nat i) = b /\
  topo_hart_count ms (Z.of_nat i) = Z.of_nat c.
Proof.
  intros Hi Hperm Hc.
  assert (Hharts : socket_harts ms (Z.of_nat i) = Some ids).
  { unfold socket_harts. rewrite Nat2Z.id.
    destruct (0 <=? Z.of_nat i) eqn:Hpos; [exact Hi | apply Z.leb_gt in Hpos; lia]. }
  assert (Hlen : length ids = c).
  { apply Permutation_length in Hperm. unfold hart_run in Hperm.
    rewrite length_seqZ in Hperm. lia. }
  assert (Hfirst : topo_first_hartid ms (Z.of_nat i) = b).
  { unfold topo_first_hartid. rewrite Hharts.
    destruct ids as [| h t]; [cbn in Hlen; lia |].
    apply (least_hart_id h t b c Hperm). }
  split; [| split; [exact Hfirst |]].
  - unfold topo_check_hartids. rewrite Hharts, Hfirst, Hlen.
    apply bool_decide_eq_true. apply sorted_hart_ids. exact Hperm.
  - unfold topo_hart_count. rewrite Hharts, Hlen. reflexivity.
Qed.

Lemma configured_props (P : Platform) (ms : MachineState) (i : Z) (r : bool) :
  ha_props (configured_hart_array P ms i r) !! "cpu-type" =
    Some (PStr (cpu_type ms)) /\
  ha_props (configured_hart_array P ms i r) !! "hartid-base" =
    Some (PInt (riscv_socket_first_hartid P ms i)) /\
  ha_props (configured_hart_array P ms i r) !! "num-harts" =
    Some (PInt (riscv_socket_hart_count P ms i)) /\
  ha_props (configured_hart_array P ms i r) !! "resetvec" =
    Some (PInt (base (rhea_memmap RHEA_ROM))).
Proof.
  unfold configured_hart_array; cbn [ha_props list_to_map foldr uncurry fst snd].
  repeat split; by simplify_map_eq.
Qed.

(** C6: with the modelled topology provider, a topology of at most one
    socket whose hart ids form a contiguous run of [c] hart ids from a base
    [b] passes the socket-count check and the checks of the socket, which
    settle exactly [b] and [c]; with collaborators that succeed
    [rhea_machine_init] then returns, and the socket's hart array carries
    [b] as base hart id and [c] as number of harts. *)
Theorem contiguous_topology_validates (cpu : string) (ms : MachineState)
  (mem : gmap Z Z) :
  (length (topology ms) <= 1)%nat ->
  Forall
    (fun ids => exists b c, 0 <= b /\ (0 < c)%nat /\ ids ≡ₚ hart_run b c)
    (topology ms) ->
  riscv_socket_count (model_platform cpu) ms <= RHEA_SOCKETS_MAX /\
  (forall (i : nat) ids b c w,
     topology ms !! i = Some ids -> ids ≡ₚ hart_run b c -> (0 < c)%nat ->
     socket_checks (model_platform cpu) ms (Z.of_nat i) w =
       Returned (b, Z.of_nat c) w) /\
  exists w,
    rhea_machine_init (model_platform cpu) ms (initial_world mem) =
      Returned tt w /\
    forall (i : nat) ids b c,
      topology ms !! i = Some ids -> ids ≡ₚ hart_run b c -> (0 < c)%nat ->
      exists h,
        soc w !! i = Some (Some h) /\
        ha_props h !! "hartid-base" = Some (PInt b) /\
        ha_props h !! "num-harts" = Some (PInt (Z.of_nat c)) /\
        ha_realized h = true.
Proof.
  intros Hlen Hall. set (P := model_platform cpu).
  assert (Hanswers : forall (i : nat) ids b c,
    topology ms !! i = Some ids -> ids ≡ₚ hart_run b c -> (0 < c)%nat ->
    riscv_socket_check_hartids P ms (Z.of_nat i) = true /\
    riscv_socket_first_hartid P ms (Z.of_nat i) = b /\
    riscv_socket_hart_count P ms (Z.of_nat i) = Z.of_nat c /\ 0 <= b).
  { intros i ids b c Hi Hperm Hc.
    destruct (contiguous_socket ms i ids b c Hi Hperm Hc) as (Hchk & Hb & Hcnt).
    repeat split; try assumption.
    rewrite Forall_lookup in Hall.
    destruct (Hall i ids Hi) as (b' & c' & Hb' & Hc' & Hperm').
    destruct (contiguous_socket ms i ids b' c' Hi Hperm' Hc') as (_ & Hb'' & _).
    congruence. }
  split; [| split].
  - cbn. unfold topo_socket_count, RHEA_SOCKETS_MAX. lia.
  - intros i ids b c w Hi Hperm Hc.
    destruct (Hanswers i ids b c Hi Hperm Hc) as (Hchk & Hb & Hcnt & Hpos).
    rewrite socket_checks_eq, Hchk, Hb, Hcnt. cbn [negb].
    destruct (b <? 0) eqn:Hneg; [apply Z.ltb_lt in Hneg; lia |].
    destruct (Z.of_nat c <? 0) eqn:Hneg'; [apply Z.ltb_lt in Hneg'; lia |].
    reflexivity.
  - destruct (topology ms) as [| ids [| ids' t]] eqn:Htopo; [| | cbn in Hlen; lia].
    + exists (memory_mapped ms 6 (initial_world mem)). split.
      * rewrite rhea_machine_init_steps. unfold bind at 1, when.
        assert (Hn : riscv_socket_count P ms = 0)
          by (cbn; unfold topo_socket_count; rewrite Htopo; reflexivity).
        rewrite Hn. change (RHEA_SOCKETS_MAX <? 0) with false. cbv beta iota.
        unfold ret at 1. cbv beta iota. unfold bind at 1.
        rewrite init_sockets_none by lia. rewrite map_memory_eq. reflexivity.
      * intros i ids b c Hi. rewrite lookup_nil in Hi. discriminate Hi.
    + apply Forall_inv in Hall as Hids.
      destruct Hids as (b0 & c0 & Hb0 & Hc0 & Hperm0).
      rewrite <- Htopo in Hanswers.
      assert (H0 : topology ms !! 0%nat = Some ids) by (rewrite Htopo; reflexivity).
      destruct (Hanswers 0%nat ids b0 c0 H0 Hperm0 Hc0) as (Hchk & Hb & Hcnt & _).
      change (Z.of_nat 0) with 0 in Hchk, Hb, Hcnt.
      exists (memory_mapped ms 6 (socket_done P ms 0 true (initial_world mem))).
      split.
      * apply one_socket_run; try reflexivity; try assumption; try lia.
        cbn. unfold topo_socket_count. rewrite Htopo. reflexivity.
      * intros i ids1 b c Hi Hperm Hc.
        destruct i as [| i]; [| rewrite lookup_cons in Hi; cbn in Hi;
                                rewrite lookup_nil in Hi; discriminate Hi].
        rewrite <- Htopo in Hi.
        destruct (Hanswers 0%nat ids1 b c Hi Hperm Hc) as (_ & Hb1 & Hcnt1 & _).
        change (Z.of_nat 0) with 0 in Hb1, Hcnt1.
        exists (configured_hart_array P ms 0 true).
        destruct (configured_props P ms 0 true) as (_ & Hpb & Hpc & _).
        rewrite Hb1 in Hpb. rewrite Hcnt1 in Hpc.
        repeat split; assumption || reflexivity.
Qed.

Lemma contiguous_topology_validates_witness :
  exists w,
    rhea_machine_init (model_platform "rv64") (with_topology [[4; 2; 3]])
      (initial_world ∅) = Returned tt w /\
    exists h,
      soc w !! 0%nat = Some (Some h) /\
      ha_props h !! "hartid-base" = Some (PInt 2) /\
      ha_props h !! "num-harts" = Some (PInt 3) /\
      ha_realized h = true.
Proof.
  assert (Hperm : [4; 2; 3] ≡ₚ hart_run 2 3).
  { change (hart_run 2 3) with [2; 3; 4]. apply (Permutation_cons_append [2; 3] 4). }
  destruct (contiguous_topology_validates "rv64" (with_topology [[4; 2; 3]]) ∅)
    as (_ & _ & w & Hrun & Hsoc).
  - cbn. lia.
  - constructor; [| constructor]. exists 2, 3%nat. split; [lia |]. split; [lia |].
    exact Hperm.
  - exists w. split; [exact Hrun |].
    apply (Hsoc 0%nat [4; 2; 3] 2 3%nat); [reflexivity | exact Hperm | lia].
Defined.

(** ** The hart limit *)

(** The modelled registry holds a request against [max_cpus] before it
    invokes the board: a single socket of five harts is refused with the
    world as it was found. *)
Remark registry_refuses_five_harts (P : Platform) (ms : MachineState)
  (ids : list Z) (w : World) :
  topology ms = [ids] -> length ids = 5%nat ->
  machine_run_board (rhea_machine_class_init P) ms w = Refused w.
Proof.
  intros Htopo Hlen.
  unfold machine_run_board, requested_harts. rewrite Htopo. cbn [concat].
  rewrite app_nil_r, Hlen. reflexivity.
Qed.

(** C7: the machine class publishes a limit of 4 harts, which a request for
    5 harts on the single socket exceeds; the modelled registry therefore
    refuses the request without invoking [rhea_machine_init], leaving the
    world as it found it, so that from the initial world no region is
    mounted and no mount has been asked for. A request within the limit is
    handed to [rhea_machine_init]; and whenever that ends in a configuration
    error, no region has been mounted either. *)
Theorem five_harts_refused (P : Platform) (ms : MachineState)
  (mem : gmap Z Z) :
  max_cpus (rhea_machine_class_init P) = 4 /\
  (forall ids,
     topology ms = [ids] -> length ids = 5%nat ->
     max_cpus (rhea_machine_class_init P) < requested_harts ms /\
     (forall w,
        machine_run_board (rhea_machine_class_init P) ms w = Refused w) /\
     mounted_ranges (initial_world mem) = [] /\
     List.filter is_mount (trace (initial_world mem)) = []) /\
  (requested_harts ms <= 4 ->
   forall w,
     machine_run_board (rhea_machine_class_init P) ms w =
       Invoked (rhea_machine_init P ms w)) /\
  (forall e w,
     rhea_machine_init P ms (initial_world mem) = Exited e w ->
     is_configuration_error e = true ->
     mounted_ranges w = [] /\ List.filter is_mount (trace w) = []).
Proof.
  split; [reflexivity |]. split; [| split].
  - intros ids Htopo Hlen. split; [| split; [| split; reflexivity]].
    + unfold requested_harts. rewrite Htopo. cbn [concat].
      rewrite app_nil_r, Hlen. reflexivity.
    + intros w. apply (registry_refuses_five_harts P ms ids w Htopo Hlen).
  - intros Hreq w. unfold machine_run_board.
    change (max_cpus (rhea_machine_class_init P)) with 4.
    apply Z.ltb_ge in Hreq. rewrite Hreq. reflexivity.
  - intros e w Hrun He.
    rewrite (configuration_error_untouched P ms _ _ e
               (initial_world_soc mem) Hrun He).
    split; reflexivity.
Qed.

Lemma five_harts_refused_witness :
  machine_run_board (rhea_machine_class_init example_platform)
    (with_topology [[0; 1; 2; 3; 4]]) (initial_world ∅) =
    Refused (initial_world ∅) /\
  machine_run_board (rhea_machine_class_init example_platform)
    (with_topology [[0; 1; 2; 3]]) (initial_world ∅) =
    Invoked (rhea_machine_init example_platform
               (with_topology [[0; 1; 2; 3]]) (initial_world ∅)) /\
  mounted_ranges
    (world_of (rhea_machine_init example_platform (with_topology [[0; 1; 3]])
                 (initial_world ∅))) = [].
Proof.
  destruct (five_harts_refused example_platform
              (with_topology [[0; 1; 2; 3; 4]]) ∅) as (_ & Hrefused & _).
  destruct (five_harts_refused example_platform
              (with_topology [[0; 1; 2; 3]]) ∅) as (_ & _ & Hinvoked & _).
  destruct (five_harts_refused example_platform
              (with_topology [[0; 1; 3]]) ∅) as (_ & _ & _ & Hexit).
  split; [| split].
  - apply (Hrefused [0; 1; 2; 3; 4]); reflexivity.
  - apply Hinvoked. evaluated.
  - apply (Hexit (DiscontinuousHartIds 0)); evaluated.
Defined.

(** ** Bounds of [s->soc] *)

(** Without the socket-count check the loop would leave the array: on two
    sockets its second round forms [&s->soc[1]]. *)
Remark unguarded_loop_leaves_soc :
  exists w,
    init_sockets example_platform (with_topology [[0]; [1]]) (initial_world ∅) =
      Faulted (OutOfBounds 1) w.
Proof. eexists. vm_compute. reflexivity. Qed.

(** C9: for a machine state that passes the socket-count check, no index
    into [s->soc] leaves the array: the run does not fault, and every call
    made on a slot of [s->soc] used an index [i] with
    [0 <= i < RHEA_SOCKETS_MAX]. *)
Theorem soc_access_in_bounds (P : Platform) (ms : MachineState)
  (mem : gmap Z Z) :
  riscv_socket_count P ms <= RHEA_SOCKETS_MAX ->
  not_faulted (rhea_machine_init P ms (initial_world mem)) /\
  not_faulted (init_sockets P ms (initial_world mem)) /\
  forall e i,
    e ∈ trace (world_of (rhea_machine_init P ms (initial_world mem))) ->
    soc_index e = Some i ->
    0 <= i < RHEA_SOCKETS_MAX.
Proof.
  intros Hmax. split; [| split].
  - destruct (run_shape P ms (initial_world mem) (initial_world_soc mem))
      as (w1 & k & _ & _ & Hout).
    destruct (rhea_machine_init P ms (initial_world mem)); easy.
  - destruct (for_loop_effect P ms (Z.to_nat (riscv_socket_count P ms)) 0
                (initial_world mem)) as [Hout _];
      [lia | unfold RHEA_SOCKETS_MAX in *; lia | apply initial_world_soc |].
    fold (init_sockets P ms) in Hout.
    destruct (init_sockets P ms (initial_world mem)); easy.
  - intros e i He Hi.
    destruct (run_trace P ms mem) as (evs & k & Hevs & Htr & _).
    rewrite Htr in He. apply elem_of_app in He as [He | He].
    + rewrite Forall_forall in Hevs.
      destruct (Hevs e He) as (j & Hj & Hbound). congruence.
    + apply elem_of_take in He as (n & He & _).
      apply list_elem_of_lookup_2, memory_event_kind in He.
      destruct He as [_ He]. congruence.
Qed.

Lemma soc_access_in_bounds_witness :
  not_faulted
    (rhea_machine_init example_platform example_machine (initial_world ∅)) /\
  0 <= 0 < RHEA_SOCKETS_MAX.
Proof.
  destruct (soc_access_in_bounds example_platform example_machine ∅)
    as (Hrun & _ & Hidx); [evaluated |].
  split; [exact Hrun |].
  apply (Hidx (EvRealize 0) 0); [| reflexivity].
  vm_compute. do 5 right. left.
Defined.

(** * Further properties of the bring-up *)

(** ** The outcome, case by case *)

Lemma map_memory_outcome (P : Platform) (ms : MachineState) (w : World) :
  map_memory P ms w = memory_outcome P ms w.
Proof. apply map_memory_eq. Qed.

(** The outcome of [rhea_machine_init] as a decision over the answers of the
    collaborators, in the order the function asks for them. *)
Lemma rhea_machine_init_eq (P : Platform) (ms : MachineState) (w : World) :
  length (soc w) = Z.to_nat RHEA_SOCKETS_MAX ->
  rhea_machine_init P ms w =
    if RHEA_SOCKETS_MAX <? riscv_socket_count P ms
    then Exited TooManySockets w
    else if riscv_socket_count P ms <=? 0
    then memory_outcome P ms w
    else if negb (riscv_socket_check_hartids P ms 0)
    then Exited (DiscontinuousHartIds 0) w
    else if riscv_socket_first_hartid P ms 0 <? 0
    then Exited (MissingBaseHartId 0) w
    else if riscv_socket_hart_count P ms 0 <? 0
    then Exited (MissingHartCount 0) w
    else if realize_succeeds P 0 (configured_hart_array P ms 0 false)
    then memory_outcome P ms (socket_done P ms 0 true w)
    else Exited (RealizeFailed 0) (socket_done P ms 0 false w).
Proof.
  intros Hlen. rewrite rhea_machine_init_steps. unfold bind at 1, when.
  destruct (RHEA_SOCKETS_MAX <? riscv_socket_count P ms) eqn:Hguard;
    [reflexivity |].
  apply Z.ltb_ge in Hguard. unfold RHEA_SOCKETS_MAX in Hguard.
  unfold ret at 1. cbv beta iota. unfold bind at 1.
  destruct (riscv_socket_count P ms <=? 0) eqn:Hn.
  - apply Z.leb_le in Hn. rewrite init_sockets_none by exact Hn.
    apply map_memory_outcome.
  - apply Z.leb_gt in Hn. rewrite init_sockets_one by lia.
    unfold bind at 1.
    rewrite init_socket_eq
      by (reflexivity || (rewrite Hlen; unfold RHEA_SOCKETS_MAX; lia)).
    repeat match goal with
           | |- context [if ?b then _ else _] =>
               lazymatch b with
               | region_init_succeeds _ _ _ => fail
               | _ => destruct b; try reflexivity
               end
           end.
    unfold ret. cbv beta iota. apply map_memory_outcome.
Qed.

(** Turning boolean tests into the propositions they decide. *)
Ltac booleans :=
  repeat match goal with
         | H : (_ <? _) = true |- _ => apply Z.ltb_lt in H
         | H : (_ <? _) = false |- _ => apply Z.ltb_ge in H
         | H : (_ <=? _) = true |- _ => apply Z.leb_le in H
         | H : (_ <=? _) = false |- _ => apply Z.leb_gt in H
         | H : negb _ = true |- _ => apply negb_true_iff in H
         | H : negb _ = false |- _ => apply negb_false_iff in H
         end.

(** Case analysis on every test an outcome depends on. *)
Ltac outcome_cases :=
  repeat match goal with
         | |- context [if ?b then _ else _] => destruct b eqn:?
         | H : context [if ?b then _ else _] |- _ => destruct b eqn:?
         end;
  booleans.

(** X1: [rhea_machine_init] returns exactly when there is at most one
    socket, that socket (if there is one) passes its three checks and its
    hart array is realized, and both the ROM and the SRAM can be created. *)
Theorem returns_iff (P : Platform) (ms : MachineState) (mem : gmap Z Z) :
  (exists w, rhea_machine_init P ms (initial_world mem) = Returned tt w) <->
  riscv_socket_count P ms <= RHEA_SOCKETS_MAX /\
  (0 < riscv_socket_count P ms -> socket_passes P ms) /\
  region_init_succeeds P "riscv.rhea.mrom" (size (rhea_memmap RHEA_ROM)) = true /\
  region_init_succeeds P "riscv.rhea.sram" (size (rhea_memmap RHEA_SRAM)) = true.
Proof.
  rewrite rhea_machine_init_eq by apply initial_world_soc.
  unfold memory_outcome, socket_passes.
  outcome_cases; split.
  all: try (intros [w Hw]; discriminate Hw).
  all: try (intros _; repeat split; try lia; congruence).
  all: try (intros (H1 & H2 & H3 & H4); try lia; try congruence;
            try (destruct H2 as (? & ? & ? & ?); [lia |]; try lia; congruence)).
  all: try (intros; eexists; reflexivity).
Qed.

Lemma returns_iff_witness :
  exists w,
    rhea_machine_init example_platform example_machine (initial_world ∅) =
      Returned tt w.
Proof.
  apply (returns_iff example_platform example_machine ∅).
  split; [evaluated |]. split; [| evaluated].
  intros _. unfold socket_passes. repeat apply conj; evaluated.
Defined.

(** X2: when [sysbus_realize] fails on the socket, the process exits with
    the hart array initialized and given its four properties but not
    realized, with no region mounted, no byte of memory changed, and the six
    calls on the socket as the whole log. *)
Theorem realize_failure_state (P : Platform) (ms : MachineState)
  (mem : gmap Z Z) :
  riscv_socket_count P ms = 1 ->
  riscv_socket_check_hartids P ms 0 = true ->
  0 <= riscv_socket_first_hartid P ms 0 ->
  0 <= riscv_socket_hart_count P ms 0 ->
  realize_succeeds P 0 (configured_hart_array P ms 0 false) = false ->
  exists w,
    rhea_machine_init P ms (initial_world mem) = Exited (RealizeFailed 0) w /\
    soc w = [Some (configured_hart_array P ms 0 false)] /\
    system_memory w = [] /\
    memory w = mem /\
    trace w = socket_events P ms 0.
Proof.
  intros Hn Hchk Hbase Hcnt Hreal.
  rewrite rhea_machine_init_eq by apply initial_world_soc.
  apply Z.ltb_ge in Hbase, Hcnt.
  rewrite Hn, Hchk, Hbase, Hcnt, Hreal. cbn [negb].
  change (RHEA_SOCKETS_MAX <? 1) with false. change (1 <=? 0) with false.
  cbv beta iota. eexists. split; [reflexivity |]. repeat split.
Qed.

Lemma realize_failure_state_witness :
  exists w,
    rhea_machine_init (failing_platform false "") example_machine
      (initial_world ∅) = Exited (RealizeFailed 0) w /\
    system_memory w = [].
Proof.
  destruct (realize_failure_state (failing_platform false "") example_machine ∅)
    as (w & Hrun & _ & Hsm & _); [evaluated.. |].
  exists w. split; assumption.
Defined.

(** X3: when the ROM cannot be created, no run returns, no blob is written
    and no byte of memory changes; a run that got past the sockets exits on
    the ROM with the RAM backing mounted at the DRAM base and nothing
    else. *)
Theorem rom_creation_failure (P : Platform) (ms : MachineState)
  (mem : gmap Z Z) :
  region_init_succeeds P "riscv.rhea.mrom" (size (rhea_memmap RHEA_ROM)) = false ->
  (forall w, rhea_machine_init P ms (initial_world mem) <> Returned tt w) /\
  memory (world_of (rhea_machine_init P ms (initial_world mem))) = mem /\
  List.filter is_blob_write
    (trace (world_of (rhea_machine_init P ms (initial_world mem)))) = [] /\
  (riscv_socket_count P ms <= RHEA_SOCKETS_MAX ->
   (0 < riscv_socket_count P ms -> socket_passes P ms) ->
   exists w,
     rhea_machine_init P ms (initial_world mem) =
       Exited (RegionInitFailed "riscv.rhea.mrom") w /\
     system_memory w = [(base (rhea_memmap RHEA_DRAM), ram ms)] /\
     List.filter is_mount (trace w) =
       [EvMount (base (rhea_memmap RHEA_DRAM)) (ram ms)]).
Proof.
  intros Hrom.
  rewrite rhea_machine_init_eq by apply initial_world_soc.
  unfold memory_outcome, socket_passes. rewrite Hrom.
  outcome_cases; cbn [world_of].
  all: repeat split; try discriminate; try reflexivity.
  all: try (intros Hmax Hpass; try lia;
            try (destruct Hpass as (? & ? & ? & ?); [lia |]; try lia; congruence)).
  all: eexists; split; [reflexivity |]; split; reflexivity.
Qed.

Lemma rom_creation_failure_witness :
  exists w,
    rhea_machine_init (failing_platform true "riscv.rhea.mrom") example_machine
      (initial_world ∅) = Exited (RegionInitFailed "riscv.rhea.mrom") w /\
    system_memory w = [(base (rhea_memmap RHEA_DRAM), ram example_machine)].
Proof.
  destruct (rom_creation_failure (failing_platform true "riscv.rhea.mrom")
              example_machine ∅) as (_ & _ & _ & H); [evaluated |].
  destruct H as (w & Hrun & Hsm & _);
    [evaluated | intros _; unfold socket_passes; repeat apply conj; evaluated |].
  exists w. split; assumption.
Defined.

(** X4: when the ROM can be created and the SRAM cannot, no run returns; a
    run that got past the sockets exits on the SRAM with the RAM backing and
    the ROM mounted and the ROM already seeded, nothing being undone. *)
Theorem sram_creation_failure (P : Platform) (ms : MachineState)
  (mem : gmap Z Z) :
  region_init_succeeds P "riscv.rhea.mrom" (size (rhea_memmap RHEA_ROM)) = true ->
  region_init_succeeds P "riscv.rhea.sram" (size (rhea_memmap RHEA_SRAM)) = false ->
  (forall w, rhea_machine_init P ms (initial_world mem) <> Returned tt w) /\
  (riscv_socket_count P ms <= RHEA_SOCKETS_MAX ->
   (0 < riscv_socket_count P ms -> socket_passes P ms) ->
   exists w,
     rhea_machine_init P ms (initial_world mem) =
       Exited (RegionInitFailed "riscv.rhea.sram") w /\
     system_memory w =
       [ (base (rhea_memmap RHEA_DRAM), ram ms);
         (base (rhea_memmap RHEA_ROM), rom_region) ] /\
     rom_bytes w 0 16 = reset_blob /\
     List.filter is_blob_write (trace w) =
       [EvBlob "mrom.reset" (base (rhea_memmap RHEA_ROM)) reset_blob]).
Proof.
  intros Hrom Hsram.
  rewrite rhea_machine_init_eq by apply initial_world_soc.
  unfold memory_outcome, socket_passes. rewrite Hrom, Hsram.
  assert (Hread : forall m : gmap Z Z,
    read_bytes (write_bytes m (base (rhea_memmap RHEA_ROM)) reset_blob)
      (base (rhea_memmap RHEA_ROM) + 0) 16 = reset_blob).
  { intros m. apply (read_bytes_written m _ reset_blob 0 16). reflexivity. }
  outcome_cases; cbn [world_of].
  all: repeat split; try discriminate.
  all: intros Hmax Hpass; try lia;
       try (destruct Hpass as (? & ? & ? & ?); [lia |]; try lia; congruence).
  all: eexists; split; [reflexivity |]; split; [reflexivity |];
       split; [apply Hread | reflexivity].
Qed.

Lemma sram_creation_failure_witness :
  exists w,
    rhea_machine_init (failing_platform true "riscv.rhea.sram") example_machine
      (initial_world ∅) = Exited (RegionInitFailed "riscv.rhea.sram") w /\
    rom_bytes w 0 16 = reset_blob.
Proof.
  destruct (sram_creation_failure (failing_platform true "riscv.rhea.sram")
              example_machine ∅) as (_ & H); [evaluated | evaluated |].
  destruct H as (w & Hrun & _ & Hrom & _);
    [evaluated | intros _; unfold socket_passes; repeat apply conj; evaluated |].
  exists w. split; assumption.
Defined.

(** X5: with a socket count of zero or less the loop does nothing: no call
    is made on [s->soc], whose slots stay as they were, the run cannot end
    in a configuration or realization error, and when both regions can be
    created it returns with the memory map built. *)
Theorem no_socket_run (P : Platform) (ms : MachineState) (mem : gmap Z Z) :
  riscv_socket_count P ms <= 0 ->
  soc (world_of (rhea_machine_init P ms (initial_world mem))) =
    soc (initial_world mem) /\
  Forall (fun e => soc_index e = None)
    (trace (world_of (rhea_machine_init P ms (initial_world mem)))) /\
  (forall e w,
     rhea_machine_init P ms (initial_world mem) = Exited e w ->
     is_configuration_error e = false /\ raised_in_loop e = false) /\
  (region_init_succeeds P "riscv.rhea.mrom" (size (rhea_memmap RHEA_ROM)) = true ->
   region_init_succeeds P "riscv.rhea.sram" (size (rhea_memmap RHEA_SRAM)) = true ->
   rhea_machine_init P ms (initial_world mem) =
     Returned tt (memory_mapped ms 6 (initial_world mem))).
Proof.
  intros Hn.
  rewrite rhea_machine_init_eq by apply initial_world_soc.
  assert (Hguard : (RHEA_SOCKETS_MAX <? riscv_socket_count P ms) = false)
    by (apply Z.ltb_ge; unfold RHEA_SOCKETS_MAX; lia).
  apply Z.leb_le in Hn. rewrite Hguard, Hn. unfold memory_outcome.
  destruct (region_init_succeeds P "riscv.rhea.mrom" _);
    [destruct (region_init_succeeds P "riscv.rhea.sram" _) |];
    cbn [world_of memory_mapped soc trace initial_world app take memory_events].
  all: split; [reflexivity |]; split; [repeat constructor |]; split.
  all: try (intros e w He; injection He as <- _; split; reflexivity).
  all: try (intros e w He; discriminate He).
  all: try reflexivity; try discriminate.
  all: intros; discriminate.
Qed.

Lemma no_socket_run_witness :
  rhea_machine_init example_platform (with_topology []) (initial_world ∅) =
    Returned tt (memory_mapped (with_topology []) 6 (initial_world ∅)).
Proof.
  destruct (no_socket_run example_platform (with_topology []) ∅)
    as (_ & _ & _ & H); [evaluated |].
  apply H; evaluated.
Defined.

(** X6: every exit has its cause. [TooManySockets] means more than one
    socket; an error naming a socket names socket 0, the only socket, and
    means that the checks before it passed and this one failed; a region
    error names the ROM or the SRAM and means the sockets went through and
    that creation failed, the ROM's having succeeded when it is the
    SRAM's. *)
Theorem exit_has_cause (P : Platform) (ms : MachineState) (mem : gmap Z Z)
  (e : Fatal) (w : World) :
  rhea_machine_init P ms (initial_world mem) = Exited e w ->
  match e with
  | TooManySockets => RHEA_SOCKETS_MAX < riscv_socket_count P ms
  | DiscontinuousHartIds i =>
      i = 0 /\ riscv_socket_count P ms = 1 /\
      riscv_socket_check_hartids P ms 0 = false
  | MissingBaseHartId i =>
      i = 0 /\ riscv_socket_count P ms = 1 /\
      riscv_socket_check_hartids P ms 0 = true /\
      riscv_socket_first_hartid P ms 0 < 0
  | MissingHartCount i =>
      i = 0 /\ riscv_socket_count P ms = 1 /\
      riscv_socket_check_hartids P ms 0 = true /\
      0 <= riscv_socket_first_hartid P ms 0 /\
      riscv_socket_hart_count P ms 0 < 0
  | RealizeFailed i =>
      i = 0 /\ riscv_socket_count P ms = 1 /\
      riscv_socket_check_hartids P ms 0 = true /\
      0 <= riscv_socket_first_hartid P ms 0 /\
      0 <= riscv_socket_hart_count P ms 0 /\
      realize_succeeds P 0 (configured_hart_array P ms 0 false) = false
  | RegionInitFailed name =>
      riscv_socket_count P ms <= RHEA_SOCKETS_MAX /\
      (0 < riscv_socket_count P ms -> socket_passes P ms) /\
      (name = "riscv.rhea.mrom" /\
       region_init_succeeds P "riscv.rhea.mrom"
         (size (rhea_memmap RHEA_ROM)) = false \/
       name = "riscv.rhea.sram" /\
       region_init_succeeds P "riscv.rhea.mrom"
         (size (rhea_memmap RHEA_ROM)) = true /\
       region_init_succeeds P "riscv.rhea.sram"
         (size (rhea_memmap RHEA_SRAM)) = false)
  end.
Proof.
  rewrite rhea_machine_init_eq by apply initial_world_soc.
  unfold memory_outcome, socket_passes, RHEA_SOCKETS_MAX.
  intros Hrun. outcome_cases; try discriminate Hrun;
    injection Hrun as <- _; repeat split; try lia; try congruence; auto.
Qed.

Lemma exit_has_cause_witness :
  riscv_socket_check_hartids example_platform (with_topology [[0; 1; 3]]) 0 =
    false.
Proof.
  destruct (exit_has_cause example_platform (with_topology [[0; 1; 3]]) ∅
              (DiscontinuousHartIds 0) (initial_world ∅)) as (_ & _ & H);
    [evaluated | exact H].
Defined.

Lemma seqZ_one : seqZ 0 1 = [0].
Proof. reflexivity. Qed.

(** X7: a run fails fast: the calls it has made, however it ends, are an
    initial part of the calls of a run in which nothing fails, and they are
    all of those calls exactly when the run returns. *)
Theorem calls_are_a_prefix (P : Platform) (ms : MachineState)
  (mem : gmap Z Z) :
  trace (world_of (rhea_machine_init P ms (initial_world mem)))
    `prefix_of` all_calls P ms /\
  ((exists w, rhea_machine_init P ms (initial_world mem) = Returned tt w) <->
   trace (world_of (rhea_machine_init P ms (initial_world mem))) =
     all_calls P ms).
Proof.
  rewrite rhea_machine_init_eq by apply initial_world_soc.
  unfold all_calls, memory_outcome, RHEA_SOCKETS_MAX.
  outcome_cases; cbn [world_of memory_mapped socket_done trace initial_world app].
  all: try (assert (Hn : riscv_socket_count P ms = 1) by lia;
            rewrite Hn, seqZ_one; cbn [flat_map]; rewrite app_nil_r).
  all: try (rewrite (seqZ_nil 0 (riscv_socket_count P ms)) by lia;
            cbn [flat_map app]).
  all: split;
    [ first [ apply prefix_nil | apply prefix_take
            | apply prefix_app, prefix_take
            | apply prefix_app_r; reflexivity ]
    | split;
      [ first [ intros _; reflexivity | intros [w Hw]; discriminate Hw ]
      | first [ intros _; eexists; reflexivity
              | intros Heq; apply (f_equal length) in Heq;
                rewrite ?length_app in Heq; cbn in Heq; lia ] ] ].
Qed.

Lemma calls_are_a_prefix_witness :
  trace (world_of (rhea_machine_init example_platform example_machine
                     (initial_world ∅))) =
    all_calls example_platform example_machine.
Proof.
  apply (calls_are_a_prefix example_platform example_machine ∅).
  eexists. vm_compute. reflexivity.
Defined.

(** X8: whatever the outcome, a run leaves every byte outside the sixteen
    bytes from the ROM base as it was; and a run that exits anywhere but on
    the creation of the SRAM leaves the whole memory as it was. *)
Theorem memory_outside_blob (P : Platform) (ms : MachineState)
  (mem : gmap Z Z) :
  (forall a,
     a < base (rhea_memmap RHEA_ROM) \/
     base (rhea_memmap RHEA_ROM) + sizeof_words reset_vec <= a ->
     memory (world_of (rhea_machine_init P ms (initial_world mem))) !! a =
       mem !! a) /\
  (forall e w,
     rhea_machine_init P ms (initial_world mem) = Exited e w ->
     e <> RegionInitFailed "riscv.rhea.sram" ->
     memory w = mem).
Proof.
  split.
  - intros a Ha.
    destruct (run_memory P ms mem) as (k & _ & -> & _).
    unfold memory_mapped; cbn [memory initial_world].
    case_decide; [| reflexivity].
    unfold write_bytes. apply lookup_union_r, lookup_map_seqZ_None.
    change (sizeof_words reset_vec) with 16 in Ha.
    rewrite reset_blob_bytes. cbn [length]. lia.
  - rewrite rhea_machine_init_eq by apply initial_world_soc.
    unfold memory_outcome. intros e w Hrun Hne.
    outcome_cases; try discriminate Hrun;
      injection Hrun as <- <-; first [reflexivity | congruence].
Qed.

Lemma memory_outside_blob_witness :
  memory (world_of (rhea_machine_init example_platform example_machine
                      (initial_world {[ 3 := 0xff; 16 := 0xaa ]}))) !! 16 =
    ({[ 3 := 0xff; 16 := 0xaa ]} : gmap Z Z) !! 16.
Proof.
  apply (memory_outside_blob example_platform example_machine
           {[ 3 := 0xff; 16 := 0xaa ]}).
  right. evaluated.
Defined.

(** X10: from any world whose [s->soc] has its declared capacity, a run
    does not fault, keeps that capacity, keeps every region that was
    mounted and adds at most three, and keeps the log it found. *)
Theorem run_keeps_invariants (P : Platform) (ms : MachineState) (w0 : World) :
  length (soc w0) = Z.to_nat RHEA_SOCKETS_MAX ->
  not_faulted (rhea_machine_init P ms w0) /\
  length (soc (world_of (rhea_machine_init P ms w0))) = length (soc w0) /\
  system_memory w0
    `prefix_of` system_memory (world_of (rhea_machine_init P ms w0)) /\
  (length (system_memory (world_of (rhea_machine_init P ms w0)))
     <= length (system_memory w0) + 3)%nat /\
  trace w0 `prefix_of` trace (world_of (rhea_machine_init P ms w0)).
Proof.
  intros Hlen.
  destruct (run_shape P ms w0 Hlen) as (w1 & k & Heff & Hw & Hout).
  destruct Heff as (Hsm & Hmem & Hsoc & evs & Htr & _).
  rewrite Hw. unfold memory_mapped; cbn [soc system_memory trace].
  rewrite Hsm, Htr, Hsoc. repeat split.
  - destruct (rhea_machine_init P ms w0); easy.
  - apply prefix_app_r. reflexivity.
  - rewrite !length_app. repeat case_decide; cbn; lia.
  - rewrite <- app_assoc. apply prefix_app_r. reflexivity.
Qed.

Lemma run_keeps_invariants_witness :
  not_faulted
    (rhea_machine_init example_platform example_machine
       {| soc := [None];
          system_memory := [(0x80000000, sram_region)];
          memory := ∅;
          trace := [EvRegionInit "other" 1 KindRam] |}) /\
  [(0x80000000, sram_region)]
    `prefix_of`
    system_memory
      (world_of
         (rhea_machine_init example_platform example_machine
            {| soc := [None];
               system_memory := [(0x80000000, sram_region)];
               memory := ∅;
               trace := [EvRegionInit "other" 1 KindRam] |})).
Proof.
  destruct (run_keeps_invariants example_platform example_machine
              {| soc := [None];
                 system_memory := [(0x80000000, sram_region)];
                 memory := ∅;
                 trace := [EvRegionInit "other" 1 KindRam] |})
    as (Hnf & _ & Hsm & _); [reflexivity |].
  split; assumption.
Defined.

(** X11: when [rhea_machine_init] returns, every hart array in [s->soc] is
    realized and its reset vector is the address the blob was written at,
    where a hart fetches the jump to itself. *)
Theorem harts_reset_into_the_blob (P : Platform) (ms : MachineState)
  (mem : gmap Z Z) (w : World) :
  rhea_machine_init P ms (initial_world mem) = Returned tt w ->
  forall (i : nat) h,
    soc w !! i = Some (Some h) ->
    ha_realized h = true /\
    exists a,
      ha_props h !! "resetvec" = Some (PInt a) /\
      EvBlob "mrom.reset" a reset_blob ∈ trace w /\
      branches_to_self (fetch32 (memory w) a).
Proof.
  rewrite rhea_machine_init_eq by apply initial_world_soc.
  unfold memory_outcome. intros Hrun i h Hi.
  assert (Hfetch : forall m : gmap Z Z,
    branches_to_self
      (fetch32 (write_bytes m (base (rhea_memmap RHEA_ROM)) reset_blob)
         (base (rhea_memmap RHEA_ROM)))).
  { intros m. unfold fetch32.
    pose proof (read_bytes_written m (base (rhea_memmap RHEA_ROM))
                  reset_blob 0 4) as Hread.
    change (base (rhea_memmap RHEA_ROM) + Z.of_nat 0)
      with (base (rhea_memmap RHEA_ROM)) in Hread.
    rewrite Hread by (rewrite reset_blob_bytes; cbn; lia). reflexivity. }
  outcome_cases; try discriminate Hrun; injection Hrun as <-.
  - destruct i as [| [| i]]; cbn in Hi; discriminate Hi.
  - destruct i as [| [| i]]; cbn in Hi; try discriminate Hi.
    injection Hi as <-. split; [reflexivity |].
    exists (base (rhea_memmap RHEA_ROM)).
    split; [apply configured_props |]. split.
    + cbn [memory_mapped trace]. apply elem_of_app. right.
      cbn. rewrite !elem_of_cons. auto.
    + apply Hfetch.
Qed.

Lemma harts_reset_into_the_blob_witness :
  soc (world_of (rhea_machine_init example_platform example_machine
                   (initial_world ∅))) !! 0%nat =
    Some (Some (configured_hart_array example_platform example_machine 0 true))
  /\
  ha_realized (configured_hart_array example_platform example_machine 0 true) =
    true.
Proof.
  assert (Hslot :
    soc (world_of (rhea_machine_init example_platform example_machine
                     (initial_world ∅))) !! 0%nat =
      Some (Some (configured_hart_array example_platform example_machine
                    0 true)))
    by (vm_compute; reflexivity).
  split; [exact Hslot |].
  apply (harts_reset_into_the_blob example_platform example_machine ∅
           (world_of (rhea_machine_init example_platform example_machine
                        (initial_world ∅)))) with (i := 0%nat);
    [vm_compute; reflexivity | exact Hslot].
Defined.

(** X12: whenever [sysbus_realize] is called it is the sixth call of the
    run, on socket 0, right after [object_initialize_child] and the four
    property sets of that socket, whose hart ids were found contiguous and
    whose base hart id and hart count are not negative. *)
Theorem realize_only_configured (P : Platform) (ms : MachineState)
  (mem : gmap Z Z) (n : nat) (i : Z) :
  trace (world_of (rhea_machine_init P ms (initial_world mem))) !! n =
    Some (EvRealize i) ->
  n = 5%nat /\ i = 0 /\
  take 5 (trace (world_of (rhea_machine_init P ms (initial_world mem)))) =
    [ EvInitChild 0 "soc0";
      EvSetProp 0 "cpu-type" (PStr (cpu_type ms));
      EvSetProp 0 "hartid-base" (PInt (riscv_socket_first_hartid P ms 0));
      EvSetProp 0 "num-harts" (PInt (riscv_socket_hart_count P ms 0));
      EvSetProp 0 "resetvec" (PInt (base (rhea_memmap RHEA_ROM))) ] /\
  riscv_socket_check_hartids P ms 0 = true /\
  0 <= riscv_socket_first_hartid P ms 0 /\
  0 <= riscv_socket_hart_count P ms 0.
Proof.
  rewrite rhea_machine_init_eq by apply initial_world_soc.
  unfold memory_outcome.
  assert (Hmem : forall k j, take k (memory_events ms) !! j <> Some (EvRealize i)).
  { intros k j Hj. apply lookup_take_Some in Hj as [Hj _].
    apply list_elem_of_lookup_2, memory_event_kind in Hj.
    destruct Hj as [Hj _]. discriminate Hj. }
  intros Hn.
  outcome_cases;
    cbn [world_of memory_mapped socket_done trace initial_world app] in Hn |- *.
  all: try (rewrite lookup_nil in Hn; discriminate Hn).
  all: try (exfalso; apply (Hmem _ _ Hn)).
  all: try (apply lookup_app_Some in Hn as [Hn | [_ Hn]];
            [| exfalso; apply (Hmem _ _ Hn)]).
  all: do 6 (destruct n as [| n]; [cbn in Hn; try discriminate Hn |]);
       try (cbn in Hn; rewrite ?lookup_nil in Hn; discriminate Hn).
  all: injection Hn as <-; repeat split; assumption.
Qed.

Lemma realize_only_configured_witness :
  0 <= riscv_socket_hart_count example_platform example_machine 0.
Proof.
  destruct (realize_only_configured example_platform example_machine ∅ 5 0)
    as (_ & _ & _ & _ & _ & H); [evaluated | exact H].
Defined.
